(** * detect_ui.py: candidate pooling, overlap removal, plausibility filter
      and labelling of UI regions

    A shallow embedding of [src/python/detect_ui.py].  Python integers are
    unbounded and are modelled by [Z].  The script uses true division [a / b]
    and compares the quotient with the literals [0.5], [0.7], [10] and [15],
    and compares integers with [image.shape[k] * 0.9]; quotients and products
    are modelled by exact rationals ([Q]).  Python rounds [int / int]
    correctly, so for operands below [2^49] (every pixel quantity) the
    comparison of the rounded quotient with those literals has the same
    outcome as the exact one.  The boxes of the line generator hold
    [numpy.int32] values; the generator's own arithmetic is modelled with
    wrap-around, and the sums and products of the later steps, which stay
    within 32 bits for an image below 46340 pixels a side, on [Z].  A raised
    exception is modelled by [Raise]. *)

From Stdlib Require Import ZArith QArith List Bool Lia Permutation Sorted.
From Stdlib Require Import String Ascii DecimalString DecimalNat.
Import ListNotations.

Local Open Scope Z_scope.

(** ** Exceptions *)

Inductive exn : Type :=
| ZeroDivisionError
| OtherError.

Inductive result (A : Type) : Type :=
| Ok (a : A)
| Raise (e : exn).

Arguments Ok {A} a.
Arguments Raise {A} e.

Definition bind {A B : Type} (r : result A) (k : A -> result B) : result B :=
  match r with
  | Ok a => k a
  | Raise e => Raise e
  end.

Notation "x <- r ;; k" := (bind r (fun x => k))
  (at level 61, r at next level, right associativity).

(** ** Numbers *)

(** [a / b] on Python integers. *)
Definition truediv (a b : Z) : result Q :=
  if b =? 0 then Raise ZeroDivisionError
  else Ok (inject_Z a / inject_Z b)%Q.

(** [q / b] where [q] is a float and [b] an integer. *)
Definition truediv_q (q : Q) (b : Z) : result Q :=
  if b =? 0 then Raise ZeroDivisionError
  else Ok (q / inject_Z b)%Q.

Definition Qltb (p q : Q) : bool := negb (Qle_bool q p).
Definition Qgtb (p q : Q) : bool := Qltb q p.

(** ** Regions *)

(** The dict [{"x": x, "y": y, "width": w, "height": h}]. *)
Record box : Type := mkBox {
  x : Z;
  y : Z;
  width : Z;
  height : Z
}.

Definition area (b : box) : Z := width b * height b.

(** ** remove_overlapping_boxes *)

(** The nested function [calculate_overlap]. *)
Definition calculate_overlap (box1 box2 : box) : result Q :=
  let x1 := x box1 in let y1 := y box1 in
  let w1 := width box1 in let h1 := height box1 in
  let x2 := x box2 in let y2 := y box2 in
  let w2 := width box2 in let h2 := height box2 in
  let left := Z.max x1 x2 in
  let top := Z.max y1 y2 in
  let right := Z.min (x1 + w1) (x2 + w2) in
  let bottom := Z.min (y1 + h1) (y2 + h2) in
  if (left <? right) && (top <? bottom) then
    let intersection := (right - left) * (bottom - top) in
    let area1 := w1 * h1 in
    let area2 := w2 * h2 in
    let union := area1 + area2 - intersection in
    truediv intersection union
  else Ok 0%Q.

(** [sorted(boxes, key=..., reverse=True)]: Python's sort is stable, also
    with [reverse=True]: elements with equal keys keep their input order.
    The model is the stable insertion sort, largest key first. *)
Section Sorted.
Context {A : Type} (key : A -> Z).

Fixpoint insert_desc (a : A) (l : list A) : list A :=
  match l with
  | [] => [a]
  | b :: l' =>
      if key b <=? key a then a :: b :: l'
      else b :: insert_desc a l'
  end.

Fixpoint sorted_desc (l : list A) : list A :=
  match l with
  | [] => []
  | a :: l' => insert_desc a (sorted_desc l')
  end.
End Sorted.

Definition overlap_threshold : Q := 1 # 2.

(** The inner loop over [filtered_boxes], with its [break]. *)
Fixpoint is_duplicate (b : box) (filtered_boxes : list box) : result bool :=
  match filtered_boxes with
  | [] => Ok false
  | existing_box :: rest =>
      o <- calculate_overlap b existing_box ;;
      if Qgtb o overlap_threshold then Ok true
      else is_duplicate b rest
  end.

(** The outer loop: [filtered_boxes] is the accumulator. *)
Fixpoint dedup_loop (boxes filtered_boxes : list box) : result (list box) :=
  match boxes with
  | [] => Ok filtered_boxes
  | b :: rest =>
      d <- is_duplicate b filtered_boxes ;;
      dedup_loop rest (if d then filtered_boxes else filtered_boxes ++ [b])
  end.

Definition remove_overlapping_boxes (boxes : list box) : result (list box) :=
  match boxes with
  | [] => Ok []
  | _ => dedup_loop (sorted_desc area boxes) []
  end.

(** ** filter_ui_boxes *)

(** Python's short-circuit [a and b] where [b] may raise. *)
Definition and_then (a : bool) (k : result bool) : result bool :=
  if a then k else Ok false.

Notation "a &&> k" := (and_then a k)
  (at level 60, right associativity).

(** [image.shape[k] * 0.9]. *)
Definition times_0_9 (n : Z) : Q := (inject_Z n * (9 # 10))%Q.

(** The condition of the [if] in [filter_ui_boxes]; [shape0] and [shape1]
    are [image.shape[0]] (rows) and [image.shape[1]] (columns). *)
Definition ui_box_ok (shape0 shape1 : Z) (b : box) : result bool :=
  let w := width b in
  let h := height b in
  (50 <=? w) &&> (30 <=? h) &&>
  Qle_bool (inject_Z w) (times_0_9 shape1) &&>
  Qle_bool (inject_Z h) (times_0_9 shape0) &&>
  (r1 <- truediv w h ;;
   Qle_bool r1 15 &&>
   (r2 <- truediv h w ;;
    Ok (Qle_bool r2 15))).

Fixpoint filter_ui_boxes (shape0 shape1 : Z) (boxes : list box)
  : result (list box) :=
  match boxes with
  | [] => Ok []
  | b :: rest =>
      keep <- ui_box_ok shape0 shape1 b ;;
      filtered <- filter_ui_boxes shape0 shape1 rest ;;
      Ok (if keep then b :: filtered else filtered)
  end.

(** ** Candidate generators *)

(** What the script reads off one contour returned by [cv2.findContours]:
    [cv2.contourArea(contour)], [len(approx)] and [cv2.boundingRect(approx)]
    for [approx = cv2.approxPolyDP(contour, ...)], and
    [cv2.boundingRect(contour)]. *)
Record contour : Type := mkContour {
  contourArea : Q;
  approx_len : nat;
  approx_rect : box;
  boundingRect : box
}.

(** A loop whose body appends some boxes to [boxes] and may raise. *)
Fixpoint for_each {A : Type} (l : list A) (body : A -> result (list box))
  : result (list box) :=
  match l with
  | [] => Ok []
  | a :: l' =>
      bs <- body a ;;
      rest <- for_each l' body ;;
      Ok (bs ++ rest)
  end.

(** The body of the loop over [contours] in [detect_edges_multi_threshold]. *)
Definition edge_contour_boxes (c : contour) : result (list box) :=
  if Qgtb (contourArea c) 500 && (4 <=? approx_len c)%nat then
    let w := width (approx_rect c) in
    let h := height (approx_rect c) in
    ok <- (30 <? w) &&> (30 <? h) &&>
          (r1 <- truediv w h ;;
           Qltb r1 10 &&>
           (r2 <- truediv h w ;;
            Ok (Qltb r2 10))) ;;
    Ok (if ok then [approx_rect c] else [])
  else Ok [].

Definition canny_thresholds : list (Z * Z) := [(30, 100); (50, 150); (70, 200)].

(** [contours_at low high] stands for the contours found on
    [cv2.Canny(blurred, low, high)]. *)
Definition detect_edges_multi_threshold (contours_at : Z -> Z -> list contour)
  : result (list box) :=
  for_each canny_thresholds
    (fun lh => for_each (contours_at (fst lh) (snd lh)) edge_contour_boxes).

Definition rect_contour_boxes (c : contour) : result (list box) :=
  if Qgtb (contourArea c) 1000 then
    let bbox_area := width (boundingRect c) * height (boundingRect c) in
    r <- truediv_q (contourArea c) bbox_area ;;
    Ok (if Qgtb r (7 # 10) then [boundingRect c] else [])
  else Ok [].

Definition kernel_sizes : list Z := [3; 5; 7].

Definition detect_rectangular_regions (contours_at : Z -> list contour)
  : result (list box) :=
  for_each kernel_sizes
    (fun size => for_each (contours_at size) rect_contour_boxes).

Definition detect_adaptive_threshold (contours : list contour) : list box :=
  flat_map (fun c =>
    if Qgtb (contourArea c) 500 then
      if (20 <? width (boundingRect c)) && (20 <? height (boundingRect c))
      then [boundingRect c] else []
    else []) contours.

Definition hsv : Type := Z * Z * Z.

Definition color_ranges : list (hsv * hsv) :=
  [ ((100, 50, 50), (130, 255, 255));
    ((40, 50, 50), (80, 255, 255));
    ((0, 50, 50), (20, 255, 255));
    ((0, 0, 200), (180, 30, 255)) ].

Definition detect_color_regions (contours_in : hsv -> hsv -> list contour)
  : list box :=
  flat_map (fun lu =>
    flat_map (fun c =>
      if Qgtb (contourArea c) 1000 then [boundingRect c] else [])
      (contours_in (fst lu) (snd lu))) color_ranges.

(** *** detect_lines_boxes *)

(** The coordinates returned by [cv2.HoughLinesP] are [numpy.int32]
    scalars: subtraction and [abs] wrap around. *)
Definition wrap32 (z : Z) : Z := (z + 2 ^ 31) mod 2 ^ 32 - 2 ^ 31.
Definition np_sub (a b : Z) : Z := wrap32 (a - b).
Definition np_abs (a : Z) : Z := wrap32 (Z.abs a).

(** [line[0]], that is [(x1, y1, x2, y2)]. *)
Definition line : Type := Z * Z * Z * Z.

(** The first loop: one more [line] sorted into [horizontal_lines] or
    [vertical_lines] (or neither). *)
Definition classify_line (acc : list (Z * Z * Z) * list (Z * Z * Z)) (l : line)
  : list (Z * Z * Z) * list (Z * Z * Z) :=
  let '(x1, y1, x2, y2) := l in
  let '(horizontal_lines, vertical_lines) := acc in
  if np_abs (np_sub y2 y1) <? 10 then
    (horizontal_lines ++ [(Z.min x1 x2, Z.max x1 x2, y1)], vertical_lines)
  else if np_abs (np_sub x2 x1) <? 10 then
    (horizontal_lines, vertical_lines ++ [(Z.min y1 y2, Z.max y1 y2, x1)])
  else acc.

(** The body of the nested loop over [h_line] and [v_line]. *)
Definition corner_boxes (h_line v_line : Z * Z * Z) : list box :=
  let '(h0, h1, h2) := h_line in
  let '(v0, v1, v2) := v_line in
  if (np_abs (np_sub h2 v0) <? 20) || (np_abs (np_sub h2 v1) <? 20) then
    let w := np_abs (np_sub h1 h0) in
    let h := np_abs (np_sub v1 v0) in
    if (30 <? w) && (30 <? h) then [mkBox v2 h2 w h] else []
  else [].

(** [lines] is the value of [cv2.HoughLinesP(...)]: [None] or an array. *)
Definition detect_lines_boxes (lines : option (list line)) : list box :=
  match lines with
  | None => []
  | Some ls =>
      let '(horizontal_lines, vertical_lines) :=
        fold_left classify_line ls ([], []) in
      flat_map (fun h_line =>
        flat_map (fun v_line => corner_boxes h_line v_line) vertical_lines)
        horizontal_lines
  end.

(** ** Strings *)

(** [str(n)] for a non-negative integer. *)
Definition str (n : nat) : string := NilEmpty.string_of_uint (Nat.to_uint n).

(** [s.replace(old, new)] for a non-empty [old]: every non-overlapping
    occurrence of [old], found from the left, is replaced.  [skip] counts
    the characters of a matched occurrence that are still to be dropped. *)
Fixpoint replace_from (old new : string) (skip : nat) (s : string) : string :=
  match s with
  | EmptyString => EmptyString
  | String c s' =>
      match skip with
      | S k => replace_from old new k s'
      | O =>
          if prefix old s
          then (new ++ replace_from old new (String.length old - 1) s')%string
          else String c (replace_from old new O s')
      end
  end.

Definition str_replace (s old new : string) : string :=
  replace_from old new 0 s.

(** [output_path = image_path.replace('.png', '_annotated.png')]. *)
Definition output_path (image_path : string) : string :=
  str_replace image_path ".png"%string "_annotated.png"%string.

(** ** The script *)

(** [labeled_box]: the copy of [box] with the three added keys. *)
Record labeled_box : Type := mkLabeled {
  region : box;
  label : string;
  color_fingerprint : list Q;
  text : string
}.

(** What a run leaves behind: the lines printed on standard output (each
    a value of [json.dumps]), the paths given to [cv2.imwrite], and the exit
    status of the process. *)
Record outcome : Type := mkOutcome {
  stdout : list string;
  written : list string;
  exit_status : Z
}.

(** The library calls of the script (OpenCV, pytesseract, built-ins) and
    the type of the arrays that hold an image. *)
Record library : Type := mkLibrary {
  Image : Type;
  imread : string -> option Image;
  (** [image.shape[0]] and [image.shape[1]]. *)
  shape0 : Image -> Z;
  shape1 : Image -> Z;
  (** The contours found by each generator, and [cv2.HoughLinesP]. *)
  canny_contours : Image -> Z -> Z -> list contour;
  morph_contours : Image -> Z -> list contour;
  adaptive_contours : Image -> list contour;
  color_contours : Image -> hsv -> hsv -> list contour;
  hough_lines : Image -> option (list line);
  (** [image[y:y+h, x:x+w]]. *)
  crop : Image -> box -> Image;
  (** [cv2.mean(roi)] and [round(c, 2)]. *)
  cv2_mean : Image -> list Q;
  round2 : Q -> Q;
  (** [pytesseract.image_to_string(cv2.cvtColor(roi, ...), ...)], which may
      raise, and [text.strip()]. *)
  image_to_string : Image -> result string;
  strip : string -> string;
  (** [json.dumps(labeled_boxes)]; it raises on a value it cannot
      serialise, a [numpy] integer for one. *)
  json_dumps : list labeled_box -> result string;
  (** [cv2.imwrite(output_path, image)]: it picks the encoder by the
      extension of the path and raises when there is none for it; its
      value ([False] when the file could not be written) is not used. *)
  imwrite : string -> Image -> result bool
}.

(** The same library with another behaviour of text extraction. *)
Definition with_image_to_string (cv2 : library)
  (ocr : Image cv2 -> result string) : library :=
  {| Image := Image cv2;
     imread := imread cv2;
     shape0 := shape0 cv2;
     shape1 := shape1 cv2;
     canny_contours := canny_contours cv2;
     morph_contours := morph_contours cv2;
     adaptive_contours := adaptive_contours cv2;
     color_contours := color_contours cv2;
     hough_lines := hough_lines cv2;
     crop := crop cv2;
     cv2_mean := cv2_mean cv2;
     round2 := round2 cv2;
     image_to_string := ocr;
     strip := strip cv2;
     json_dumps := json_dumps cv2;
     imwrite := imwrite cv2 |}.

Section Script.
Variable cv2 : library.

Definition get_color_fingerprint (roi : Image cv2) : list Q :=
  map (round2 cv2) (firstn 3 (cv2_mean cv2 roi)).

Definition extract_text_from_roi (roi : Image cv2) : result string :=
  t <- image_to_string cv2 roi ;;
  Ok (strip cv2 t).

(** Lines 145-151: the pool [all_boxes]. *)
Definition all_boxes (image : Image cv2) : result (list box) :=
  b1 <- detect_edges_multi_threshold (canny_contours cv2 image) ;;
  b2 <- detect_rectangular_regions (morph_contours cv2 image) ;;
  Ok (b1 ++ b2
      ++ detect_adaptive_threshold (adaptive_contours cv2 image)
      ++ detect_color_regions (color_contours cv2 image)
      ++ detect_lines_boxes (hough_lines cv2 image)).

(** Lines 192 and 206: [final_boxes] from a pool. *)
Definition final_boxes_of (image : Image cv2) (pool : list box)
  : result (list box) :=
  deduplicated <- remove_overlapping_boxes pool ;;
  filter_ui_boxes (shape0 cv2 image) (shape1 cv2 image) deduplicated.

(** One pass of the labelling loop, for [enumerate] index [i]. *)
Definition label_box (image : Image cv2) (i : nat) (b : box) : labeled_box :=
  let roi := crop cv2 image b in
  {| region := b;
     label := ("UI" ++ str (i + 1))%string;
     color_fingerprint := get_color_fingerprint roi;
     text := match extract_text_from_roi roi with
             | Ok t => t
             | Raise _ => EmptyString
             end |}.

(** The labelling loop; [labeled_boxes] is the accumulator. *)
Fixpoint label_loop (image : Image cv2) (i : nat) (final_boxes : list box)
  (labeled_boxes : list labeled_box) : list labeled_box :=
  match final_boxes with
  | [] => labeled_boxes
  | b :: rest =>
      label_loop image (S i) rest (labeled_boxes ++ [label_box image i b])
  end.

Definition label_boxes (image : Image cv2) (final_boxes : list box)
  : list labeled_box :=
  label_loop image 0 final_boxes [].

(** What the loop appends for the regions [final_boxes], the first of
    which has index [i]. *)
Fixpoint labelled_from (image : Image cv2) (i : nat) (final_boxes : list box)
  : list labeled_box :=
  match final_boxes with
  | [] => []
  | b :: rest => label_box image i b :: labelled_from image (S i) rest
  end.

(** The script from the image on.  An exception that nothing catches
    ends the process with status 1: up to [json.dumps] nothing has been
    printed yet; [cv2.imwrite] is called after the line is printed (and
    after the drawing loop), so when it raises the line stays printed. *)
Definition run (image_path : string) (image : Image cv2) : outcome :=
  match
    pool <- all_boxes image ;;
    final_boxes <- final_boxes_of image pool ;;
    json_dumps cv2 (label_boxes image final_boxes)
  with
  | Raise _ => mkOutcome [] [] 1
  | Ok document =>
      match imwrite cv2 (output_path image_path) image with
      | Ok _ => mkOutcome [document] [output_path image_path] 0
      | Raise _ => mkOutcome [document] [output_path image_path] 1
      end
  end.

(** The whole script; [argv] is [sys.argv]. *)
Definition main (argv : list string) : outcome :=
  if (List.length argv <? 2)%nat then mkOutcome ["[]"%string] [] 0
  else
    let image_path := nth 1 argv EmptyString in
    match imread cv2 image_path with
    | None => mkOutcome ["[]"%string] [] 1
    | Some image => run image_path image
    end.
End Script.

(** ** A library for examples *)

(** A 1000 x 1000 image, read from ["screen.png"], on which adaptive
    thresholding finds the contours [cs] and the other generators nothing;
    a crop is named by its box and [ocr] is what text extraction does on
    it; only a path with [.png] in it has an encoder. *)
Definition example_library (cs : list contour) (ocr : box -> result string)
  : library :=
  {| Image := option box;
     imread := fun p =>
       if String.eqb p "screen.png" then Some None else None;
     shape0 := fun _ => 1000;
     shape1 := fun _ => 1000;
     canny_contours := fun _ _ _ => [];
     morph_contours := fun _ _ => [];
     adaptive_contours := fun _ => cs;
     color_contours := fun _ _ _ => [];
     hough_lines := fun _ => None;
     crop := fun _ b => Some b;
     cv2_mean := fun _ => [10; 20; 30; 0]%Q;
     round2 := fun q => q;
     image_to_string := fun roi =>
       match roi with
       | Some b => ocr b
       | None => Ok EmptyString
       end;
     strip := fun s => s;
     json_dumps := fun l => Ok (String.concat "," (map label l));
     imwrite := fun p _ =>
       match index 0 ".png" p with
       | Some _ => Ok true
       | None => Raise OtherError
       end |}.

Definition blank_library : library :=
  example_library [] (fun _ => Ok EmptyString).

(** A contour that fills its bounding box [b]. *)
Definition full_contour (b : box) : contour :=
  mkContour (inject_Z (area b)) 4 b b.

(** Two buttons are found; text extraction raises on the one at x = 0. *)
Definition two_buttons_library : library :=
  example_library
    [full_contour (mkBox 0 0 100 60); full_contour (mkBox 200 200 120 50)]
    (fun b => if (x b =? 0)%Z then Raise OtherError else Ok "Save"%string).

(** ** The specification's notions *)

(** Width and height of the common part of two rectangles (positive when
    the rectangles overlap), and the intersection and union areas. *)
Definition overlap_w (a b : box) : Z :=
  Z.min (x a + width a) (x b + width b) - Z.max (x a) (x b).

Definition overlap_h (a b : box) : Z :=
  Z.min (y a + height a) (y b + height b) - Z.max (y a) (y b).

Definition overlaps (a b : box) : bool :=
  (0 <? overlap_w a b) && (0 <? overlap_h a b).

Definition intersection_area (a b : box) : Z := overlap_w a b * overlap_h a b.

Definition union_area (a b : box) : Z :=
  area a + area b - intersection_area a b.

(** Intersection over union of two rectangles: intersection area divided
    by union area, 0 when the rectangles do not overlap. *)
Definition IoU (a b : box) : Q :=
  if overlaps a b
  then (inject_Z (intersection_area a b) / inject_Z (union_area a b))%Q
  else 0%Q.

(** Largest key first. *)
Definition ge_key {A : Type} (key : A -> Z) (a b : A) : Prop :=
  (key b <= key a)%Z.

(** [s] is the pool [l] sorted by a stable sort, largest [key] first. *)
Definition StableSortedDesc {A : Type} (key : A -> Z) (l s : list A) : Prop :=
  Permutation l s /\
  StronglySorted (ge_key key) s /\
  forall k : Z,
    filter (fun a => key a =? k)%Z s = filter (fun a => key a =? k)%Z l.

(** Greedy acceptance in the given order: [Greedy cands acc out] when
    walking [cands] from the accepted regions [acc] ends with [out]. *)
Inductive Greedy : list box -> list box -> list box -> Prop :=
| Greedy_done acc :
    Greedy [] acc acc
| Greedy_accept c cands acc out :
    (forall e, In e acc -> (IoU c e <= 1 # 2)%Q) ->
    Greedy cands (acc ++ [c]) out ->
    Greedy (c :: cands) acc out
| Greedy_discard c cands acc out :
    (exists e, In e acc /\ ~ (IoU c e <= 1 # 2)%Q) ->
    Greedy cands acc out ->
    Greedy (c :: cands) acc out.

(** The plausibility predicate for an image [img_w] wide and [img_h] high. *)
Definition plausible (img_w img_h : Z) (b : box) : Prop :=
  (50 <= width b)%Z /\ (30 <= height b)%Z /\
  (inject_Z (width b) <= (9 # 10) * inject_Z img_w)%Q /\
  (inject_Z (height b) <= (9 # 10) * inject_Z img_h)%Q /\
  (inject_Z (width b) / inject_Z (height b) <= 15)%Q /\
  (inject_Z (height b) / inject_Z (width b) <= 15)%Q.

(** The same predicate on integers, as a decision procedure. *)
Definition plausibleb (img_w img_h : Z) (b : box) : bool :=
  (50 <=? width b)%Z && (30 <=? height b)%Z &&
  (10 * width b <=? 9 * img_w)%Z && (10 * height b <=? 9 * img_h)%Z &&
  (width b <=? 15 * height b)%Z && (height b <=? 15 * width b)%Z.

(** Two regions that may both be kept. *)
Definition IoU_ok (a b : box) : Prop := (IoU a b <= 1 # 2)%Q.

(** No two regions at different positions of [l] have an IoU above 0.5. *)
Definition pairwise_IoU_ok (l : list box) : Prop :=
  forall i j bi bj,
    i <> j -> nth_error l i = Some bi -> nth_error l j = Some bj ->
    (IoU bi bj <= 1 # 2)%Q.

(** The acceptance test of [detect_edges_multi_threshold] on one contour,
    as a decision procedure on integers. *)
Definition edge_acceptb (c : contour) : bool :=
  Qgtb (contourArea c) 500 && (4 <=? approx_len c)%nat &&
  (30 <? width (approx_rect c))%Z && (30 <? height (approx_rect c))%Z &&
  (width (approx_rect c) <? 10 * height (approx_rect c))%Z &&
  (height (approx_rect c) <? 10 * width (approx_rect c))%Z.

(** The same test as a proposition: both ratios are below 10. *)
Definition edge_accepted (c : contour) : Prop :=
  (500 < contourArea c)%Q /\ (4 <= approx_len c)%nat /\
  (30 < width (approx_rect c))%Z /\ (30 < height (approx_rect c))%Z /\
  (inject_Z (width (approx_rect c)) / inject_Z (height (approx_rect c)) < 10)%Q /\
  (inject_Z (height (approx_rect c)) / inject_Z (width (approx_rect c)) < 10)%Q.

(** The test with ratios within 10:1, the ratio 10:1 included. *)
Definition edge_within_10_to_1 (c : contour) : Prop :=
  (500 < contourArea c)%Q /\ (4 <= approx_len c)%nat /\
  (30 < width (approx_rect c))%Z /\ (30 < height (approx_rect c))%Z /\
  (inject_Z (width (approx_rect c)) / inject_Z (height (approx_rect c)) <= 10)%Q /\
  (inject_Z (height (approx_rect c)) / inject_Z (width (approx_rect c)) <= 10)%Q.

(** The label [UI<n>]. *)
Definition ui_label (n : nat) : string := ("UI" ++ str n)%string.

(** [p] with its [suffix] replaced by [new]; [None] without that suffix. *)
Fixpoint replace_suffix (p suffix new : string) : option string :=
  if String.eqb p suffix then Some new
  else match p with
       | EmptyString => None
       | String c p' =>
           match replace_suffix p' suffix new with
           | Some r => Some (String c r)
           | None => None
           end
       end.

(** A name without any ["."]. *)
Fixpoint dotless (s : string) : bool :=
  match s with
  | EmptyString => true
  | String c s' => negb (Ascii.eqb c ".") && dotless s'
  end.

(** The directory part of a path: everything up to the last ["/"]. *)
Fixpoint dirname (p : string) : string :=
  match p with
  | EmptyString => EmptyString
  | String c p' =>
      if existsb (Ascii.eqb "/"%char) (list_ascii_of_string p')
      then String c (dirname p')
      else if Ascii.eqb c "/"%char then String c EmptyString
      else EmptyString
  end.

(** An image 55 pixels wide and 600 high on which nothing is found. *)
Definition narrow_library : library :=
  {| Image := unit;
     imread := fun _ => Some tt;
     shape0 := fun _ => 600;
     shape1 := fun _ => 55;
     canny_contours := fun _ _ _ => [];
     morph_contours := fun _ _ => [];
     adaptive_contours := fun _ => [];
     color_contours := fun _ _ _ => [];
     hough_lines := fun _ => None;
     crop := fun _ _ => tt;
     cv2_mean := fun _ => [];
     round2 := fun q => q;
     image_to_string := fun _ => Ok EmptyString;
     strip := fun s => s;
     json_dumps := fun l => Ok (String.concat "," (map label l));
     imwrite := fun p _ =>
       match index 0 ".png" p with
       | Some _ => Ok true
       | None => Raise OtherError
       end |}.

(** ** The drawing loop *)

(** The two calls made per region on the annotated image. *)
Inductive draw_call : Type :=
| rectangle (pt1 pt2 : Z * Z) (color : Z * Z * Z) (thickness : Z)
| putText (txt : string) (org : Z * Z) (fontScale : Q) (color : Z * Z * Z)
    (thickness : Z).

Definition colors : list (Z * Z * Z) :=
  [(0, 255, 0); (255, 0, 0); (0, 0, 255); (255, 255, 0); (255, 0, 255)].

(** Lines 249-260, from [enumerate] index [i] on. *)
Fixpoint draw_loop (i : nat) (final_boxes : list box) : list draw_call :=
  match final_boxes with
  | [] => []
  | b :: rest =>
      let color := nth (i mod List.length colors) colors (0, 0, 0) in
      rectangle (x b, y b) (x b + width b, y b + height b) color 2
      :: putText ("UI" ++ str (i + 1))%string (x b, y b - 10) (7 # 10) color 2
      :: draw_loop (S i) rest
  end.

Definition draw_boxes (final_boxes : list box) : list draw_call :=
  draw_loop 0 final_boxes.

(** The texts put on the image, in drawing order. *)
Fixpoint drawn_texts (calls : list draw_call) : list string :=
  match calls with
  | [] => []
  | putText t _ _ _ _ :: rest => t :: drawn_texts rest
  | rectangle _ _ _ _ :: rest => drawn_texts rest
  end.

(** ** Further notions used in the statements *)

(** [l1] is [l2] with some elements left out. *)
Inductive subseq {A : Type} : list A -> list A -> Prop :=
| subseq_nil : subseq [] []
| subseq_skip a l1 l2 : subseq l1 l2 -> subseq l1 (a :: l2)
| subseq_take a l1 l2 : subseq l1 l2 -> subseq (a :: l1) (a :: l2).

(** [old] occurs somewhere in [s]. *)
Fixpoint occurs (old s : string) : bool :=
  prefix old s ||
  match s with
  | EmptyString => false
  | String _ s' => occurs old s'
  end.

(** The box moved by [(dx, dy)]. *)
Definition shift (dx dy : Z) (b : box) : box :=
  mkBox (x b + dx) (y b + dy) (width b) (height b).

(** [b] lies inside [a]. *)
Definition within (b a : box) : Prop :=
  (x a <= x b)%Z /\ (y a <= y b)%Z /\
  (x b + width b <= x a + width a)%Z /\
  (y b + height b <= y a + height a)%Z.

(** A coordinate of an image: no [numpy.int32] operation on two of them
    wraps around. *)
Definition pixel (z : Z) : Prop := (0 <= z < 2 ^ 31)%Z.

Definition pixel_line (l : line) : Prop :=
  let '(x1, y1, x2, y2) := l in pixel x1 /\ pixel y1 /\ pixel x2 /\ pixel y2.

(** The two tests of the first loop of [detect_lines_boxes]: the second
    is under [elif]. *)
Definition is_horizontal (l : line) : bool :=
  let '(x1, y1, x2, y2) := l in (np_abs (np_sub y2 y1) <? 10)%Z.

Definition is_vertical (l : line) : bool :=
  let '(x1, y1, x2, y2) := l in
  negb (np_abs (np_sub y2 y1) <? 10)%Z && (np_abs (np_sub x2 x1) <? 10)%Z.

(** The tuples appended to [horizontal_lines] and [vertical_lines]. *)
Definition horizontal_entry (l : line) : Z * Z * Z :=
  let '(x1, y1, x2, y2) := l in (Z.min x1 x2, Z.max x1 x2, y1).

Definition vertical_entry (l : line) : Z * Z * Z :=
  let '(x1, y1, x2, y2) := l in (Z.min y1 y2, Z.max y1 y2, x1).

(** The test of [detect_rectangular_regions] on a contour whose bounding
    box is not empty, on integers and rationals without division. *)
Definition rect_acceptb (c : contour) : bool :=
  Qgtb (contourArea c) 1000 &&
  Qgtb (10 * contourArea c)
       (7 * inject_Z (width (boundingRect c) * height (boundingRect c))).

(** The contour makes [contour_area / bbox_area] divide by zero. *)
Definition rect_divides_by_zero (c : contour) : bool :=
  Qgtb (contourArea c) 1000 &&
  (width (boundingRect c) * height (boundingRect c) =? 0)%Z.

(** * Proofs *)

(** ** Rationals *)

Lemma Qdiv_Z_le (a b n : Z) (d : positive) :
  (0 < b)%Z ->
  ((inject_Z a / inject_Z b <= n # d)%Q <-> (a * Z.pos d <= n * b)%Z).
Proof.
  intros Hb. destruct b as [|p|p]; try lia.
  unfold Qle, Qdiv, Qmult, Qinv, inject_Z; simpl.
  rewrite !Z.mul_1_r. reflexivity.
Qed.

Lemma Qdiv_Z_lt (a b n : Z) (d : positive) :
  (0 < b)%Z ->
  ((inject_Z a / inject_Z b < n # d)%Q <-> (a * Z.pos d < n * b)%Z).
Proof.
  intros Hb. destruct b as [|p|p]; try lia.
  unfold Qlt, Qdiv, Qmult, Qinv, inject_Z; simpl.
  rewrite !Z.mul_1_r. reflexivity.
Qed.

Lemma Qltb_lt (p q : Q) : Qltb p q = true <-> (p < q)%Q.
Proof.
  unfold Qltb. rewrite negb_true_iff, <- not_true_iff_false, Qle_bool_iff.
  split; [apply Qnot_le_lt | apply Qlt_not_le].
Qed.

Lemma Qgtb_false_le (p q : Q) : Qgtb p q = false <-> (p <= q)%Q.
Proof.
  unfold Qgtb, Qltb. rewrite negb_false_iff. apply Qle_bool_iff.
Qed.

Lemma truediv_pos (a b : Z) :
  (0 < b)%Z -> truediv a b = Ok (inject_Z a / inject_Z b)%Q.
Proof.
  intros Hb. unfold truediv.
  destruct (Z.eqb_spec b 0) as [E|_]; [lia | reflexivity].
Qed.

(** ** calculate_overlap *)

(** Two rectangles whose common part has positive width and height have
    positive widths and heights, and the common part fits in both. *)
Lemma intersection_bounds (a b : box) :
  (0 < overlap_w a b)%Z -> (0 < overlap_h a b)%Z ->
  (0 < intersection_area a b)%Z /\
  (intersection_area a b <= area a)%Z /\
  (intersection_area a b <= area b)%Z.
Proof.
  unfold intersection_area, overlap_w, overlap_h, area.
  destruct a as [xa ya wa ha], b as [xb yb wb hb]; simpl.
  intros Hw Hh.
  set (iw := (Z.min (xa + wa) (xb + wb) - Z.max xa xb)%Z) in *.
  set (ih := (Z.min (ya + ha) (yb + hb) - Z.max ya yb)%Z) in *.
  assert (iw <= wa)%Z by (subst iw; lia).
  assert (iw <= wb)%Z by (subst iw; lia).
  assert (ih <= ha)%Z by (subst ih; lia).
  assert (ih <= hb)%Z by (subst ih; lia).
  repeat split; nia.
Qed.

Lemma union_ge_intersection (a b : box) :
  (0 < overlap_w a b)%Z -> (0 < overlap_h a b)%Z ->
  (0 < intersection_area a b <= union_area a b)%Z.
Proof.
  intros Hw Hh. unfold union_area.
  destruct (intersection_bounds a b Hw Hh) as (H0 & H1 & H2). lia.
Qed.

Lemma overlaps_true (a b : box) :
  overlaps a b = true <-> (0 < overlap_w a b /\ 0 < overlap_h a b)%Z.
Proof.
  unfold overlaps. rewrite andb_true_iff, !Z.ltb_lt. reflexivity.
Qed.

(** The test [left < right and top < bottom] of the code is [overlaps]. *)
Lemma calculate_overlap_unfold (a b : box) :
  calculate_overlap a b =
  if overlaps a b
  then truediv (intersection_area a b) (union_area a b)
  else Ok 0%Q.
Proof.
  unfold calculate_overlap, overlaps, intersection_area, union_area,
    overlap_w, overlap_h, area.
  replace (Z.max (x a) (x b) <? Z.min (x a + width a) (x b + width b))%Z
    with (0 <? Z.min (x a + width a) (x b + width b) - Z.max (x a) (x b))%Z.
  2:{ apply eq_true_iff_eq. rewrite !Z.ltb_lt. lia. }
  replace (Z.max (y a) (y b) <? Z.min (y a + height a) (y b + height b))%Z
    with (0 <? Z.min (y a + height a) (y b + height b) - Z.max (y a) (y b))%Z.
  2:{ apply eq_true_iff_eq. rewrite !Z.ltb_lt. lia. }
  reflexivity.
Qed.

Lemma calculate_overlap_IoU (a b : box) :
  calculate_overlap a b = Ok (IoU a b).
Proof.
  rewrite calculate_overlap_unfold. unfold IoU.
  destruct (overlaps a b) eqn:E; [|reflexivity].
  apply overlaps_true in E. destruct E as [Hw Hh].
  apply truediv_pos.
  pose proof (union_ge_intersection a b Hw Hh). lia.
Qed.

Lemma IoU_sym (a b : box) : IoU a b = IoU b a.
Proof.
  assert (Hw : overlap_w a b = overlap_w b a)
    by (unfold overlap_w; rewrite Z.min_comm, Z.max_comm; reflexivity).
  assert (Hh : overlap_h a b = overlap_h b a)
    by (unfold overlap_h; rewrite Z.min_comm, Z.max_comm; reflexivity).
  unfold IoU, overlaps, union_area, intersection_area.
  rewrite Hw, Hh, (Z.add_comm (area a)). reflexivity.
Qed.

(** C9: [calculate_overlap] never raises.  The division is reached only
    when the common part of the two boxes has positive width and height;
    then the intersection is positive and the union is at least the
    intersection, hence not zero, and the quotient is returned.  Boxes that
    are disjoint or only touch (also boxes of area 0) give 0. *)
Theorem calculate_overlap_total (box1 box2 : box) :
  (exists q, calculate_overlap box1 box2 = Ok q) /\
  ((0 < overlap_w box1 box2 /\ 0 < overlap_h box1 box2)%Z ->
   (0 < intersection_area box1 box2 <= union_area box1 box2)%Z /\
   calculate_overlap box1 box2 =
   truediv (intersection_area box1 box2) (union_area box1 box2) /\
   calculate_overlap box1 box2 =
   Ok (inject_Z (intersection_area box1 box2)
       / inject_Z (union_area box1 box2))%Q) /\
  ((overlap_w box1 box2 <= 0 \/ overlap_h box1 box2 <= 0)%Z ->
   calculate_overlap box1 box2 = Ok 0%Q).
Proof.
  split; [|split].
  - exists (IoU box1 box2). apply calculate_overlap_IoU.
  - intros [Hw Hh].
    pose proof (union_ge_intersection box1 box2 Hw Hh) as Hu.
    assert (E : overlaps box1 box2 = true) by (apply overlaps_true; auto).
    split; [exact Hu|].
    rewrite calculate_overlap_unfold, E. split; [reflexivity|].
    apply truediv_pos. lia.
  - intros H. rewrite calculate_overlap_unfold.
    destruct (overlaps box1 box2) eqn:E; [|reflexivity].
    apply overlaps_true in E. lia.
Qed.

Lemma calculate_overlap_total_witness :
  calculate_overlap (mkBox 10 10 90 90) (mkBox 0 0 100 100) = Ok (8100 # 10000)
  /\ calculate_overlap (mkBox 0 0 10 10) (mkBox 10 0 10 10) = Ok 0%Q
  /\ calculate_overlap (mkBox 5 5 0 0) (mkBox 5 5 0 0) = Ok 0%Q.
Proof.
  split; [|split].
  - destruct (calculate_overlap_total (mkBox 10 10 90 90) (mkBox 0 0 100 100))
      as (_ & H & _).
    destruct H as (_ & _ & H); [vm_compute; auto|].
    rewrite H. reflexivity.
  - apply (calculate_overlap_total (mkBox 0 0 10 10) (mkBox 10 0 10 10)).
    left. vm_compute. discriminate.
  - apply (calculate_overlap_total (mkBox 5 5 0 0) (mkBox 5 5 0 0)).
    left. vm_compute. discriminate.
Defined.

(** ** The stable sort *)

Section SortedFacts.
Context {A : Type} (key : A -> Z).

Lemma insert_desc_perm (a : A) (l : list A) :
  Permutation (a :: l) (insert_desc key a l).
Proof.
  induction l as [|b l IH]; simpl.
  - apply Permutation_refl.
  - destruct (key b <=? key a)%Z.
    + apply Permutation_refl.
    + eapply perm_trans; [apply perm_swap|]. apply perm_skip, IH.
Qed.

Lemma sorted_desc_perm (l : list A) : Permutation l (sorted_desc key l).
Proof.
  induction l as [|a l IH]; simpl.
  - apply perm_nil.
  - eapply perm_trans; [apply perm_skip, IH | apply insert_desc_perm].
Qed.

Lemma insert_desc_sorted (a : A) (l : list A) :
  StronglySorted (ge_key key) l ->
  StronglySorted (ge_key key) (insert_desc key a l).
Proof.
  induction 1 as [|b l Hs IH Hb]; simpl.
  - constructor; constructor.
  - destruct (Z.leb_spec (key b) (key a)) as [Hle|Hlt].
    + constructor; [constructor; assumption|].
      constructor; [exact Hle|].
      eapply Forall_impl; [|exact Hb].
      unfold ge_key; intros c Hc; lia.
    + constructor; [exact IH|].
      eapply Permutation_Forall; [apply insert_desc_perm|].
      constructor; [unfold ge_key; lia | exact Hb].
Qed.

Lemma sorted_desc_sorted (l : list A) :
  StronglySorted (ge_key key) (sorted_desc key l).
Proof.
  induction l as [|a l IH]; simpl.
  - constructor.
  - apply insert_desc_sorted, IH.
Qed.

(** Inserting [a] only moves it past elements with a strictly larger
    key, so the elements of any one key keep their order. *)
Lemma insert_desc_filter (k : Z) (a : A) (l : list A) :
  filter (fun c => key c =? k)%Z (insert_desc key a l) =
  filter (fun c => key c =? k)%Z (a :: l).
Proof.
  induction l as [|b l IH]; [reflexivity|].
  cbn [insert_desc].
  destruct (Z.leb_spec (key b) (key a)) as [Hle|Hlt]; [reflexivity|].
  cbn [filter] in *. rewrite IH.
  destruct (Z.eqb_spec (key b) k) as [Eb|Nb];
    destruct (Z.eqb_spec (key a) k) as [Ea|Na]; try reflexivity.
  lia.
Qed.

Lemma sorted_desc_filter (k : Z) (l : list A) :
  filter (fun c => key c =? k)%Z (sorted_desc key l) =
  filter (fun c => key c =? k)%Z l.
Proof.
  induction l as [|a l IH]; [reflexivity|].
  cbn [sorted_desc]. rewrite insert_desc_filter.
  cbn [filter]. rewrite IH. reflexivity.
Qed.

Lemma sorted_desc_stable (l : list A) :
  StableSortedDesc key l (sorted_desc key l).
Proof.
  split; [apply sorted_desc_perm|].
  split; [apply sorted_desc_sorted|].
  intros k. apply sorted_desc_filter.
Qed.
End SortedFacts.

(** ** The greedy loop *)

Lemma is_duplicate_spec (b : box) (acc : list box) :
  exists d, is_duplicate b acc = Ok d /\
    (d = false -> forall e, In e acc -> (IoU b e <= 1 # 2)%Q) /\
    (d = true -> exists e, In e acc /\ ~ (IoU b e <= 1 # 2)%Q).
Proof.
  induction acc as [|e acc (d & Hd & Hf & Ht)]; simpl.
  - exists false. split; [reflexivity|]. split; [intros _ e []|discriminate].
  - rewrite calculate_overlap_IoU. simpl.
    destruct (Qgtb (IoU b e) overlap_threshold) eqn:E.
    + exists true. split; [reflexivity|]. split; [discriminate|].
      intros _. exists e. split; [left; reflexivity|].
      intros Hle. apply Qgtb_false_le in Hle.
      unfold overlap_threshold in E. congruence.
    + exists d. split; [exact Hd|]. split.
      * intros Ed e' [<-|Hin]; [|apply Hf; assumption].
        apply Qgtb_false_le in E. exact E.
      * intros Ed. destruct (Ht Ed) as (e' & Hin & Hn).
        exists e'. split; [right; exact Hin | exact Hn].
Qed.

Lemma dedup_loop_greedy (cands acc : list box) :
  exists out, dedup_loop cands acc = Ok out /\ Greedy cands acc out.
Proof.
  revert acc. induction cands as [|c cands IH]; intros acc; simpl.
  - exists acc. split; [reflexivity | constructor].
  - destruct (is_duplicate_spec c acc) as (d & Hd & Hf & Ht).
    rewrite Hd. simpl. destruct d.
    + destruct (IH acc) as (out & Ho & Hg).
      exists out. split; [exact Ho|].
      apply Greedy_discard; [apply Ht; reflexivity | exact Hg].
    + destruct (IH (acc ++ [c])) as (out & Ho & Hg).
      exists out. split; [exact Ho|].
      apply Greedy_accept; [apply Hf; reflexivity | exact Hg].
Qed.

(** ** The specification determines the result *)

(** The greedy walk has one outcome. *)
Lemma Greedy_functional (cands acc out1 out2 : list box) :
  Greedy cands acc out1 -> Greedy cands acc out2 -> out1 = out2.
Proof.
  induction 1 as [acc | c cands acc out Hc _ IH | c cands acc out Hc _ IH];
    intros H2; inversion H2; subst; auto.
  - match goal with H : exists _, _ |- _ => destruct H as (e & He & Hn) end.
    exfalso. apply Hn, Hc, He.
  - destruct Hc as (e & He & Hn).
    exfalso. apply Hn. auto.
Qed.

Section StableUnique.
Context {A : Type} (key : A -> Z).

Lemma filter_key_head (a : A) (l : list A) :
  filter (fun c => key c =? key a)%Z (a :: l)
  = a :: filter (fun c => key c =? key a)%Z l.
Proof. cbn [filter]. rewrite Z.eqb_refl. reflexivity. Qed.

Lemma filter_key_in (k : Z) (a : A) (l l' : list A) :
  filter (fun c => key c =? k)%Z l = a :: l' -> In a l /\ key a = k.
Proof.
  intros E.
  assert (Hin : In a (filter (fun c => key c =? k)%Z l))
    by (rewrite E; left; reflexivity).
  apply filter_In in Hin. destruct Hin as [Hin Hk].
  split; [exact Hin | apply Z.eqb_eq, Hk].
Qed.

(** Two lists sorted largest key first, in which the elements of every
    key come in the same order, are equal. *)
Lemma sorted_desc_unique (s1 : list A) :
  forall s2,
    StronglySorted (ge_key key) s1 -> StronglySorted (ge_key key) s2 ->
    (forall k, filter (fun c => key c =? k)%Z s1
               = filter (fun c => key c =? k)%Z s2) ->
    s1 = s2.
Proof.
  induction s1 as [|a s1 IH]; intros s2 H1 H2 Hf.
  - destruct s2 as [|b s2]; [reflexivity|].
    specialize (Hf (key b)). rewrite filter_key_head in Hf. discriminate.
  - destruct s2 as [|b s2].
    { specialize (Hf (key a)). rewrite filter_key_head in Hf. discriminate. }
    inversion H1 as [|? ? Hs1 Ha]; subst.
    inversion H2 as [|? ? Hs2 Hb]; subst.
    rewrite Forall_forall in Ha, Hb.
    assert (Hab : key a = key b).
    { pose proof (Hf (key a)) as Ea. rewrite filter_key_head in Ea.
      symmetry in Ea. apply filter_key_in in Ea. destruct Ea as [[<-|Ia] _];
        [reflexivity|].
      pose proof (Hf (key b)) as Eb. rewrite filter_key_head in Eb.
      apply filter_key_in in Eb. destruct Eb as [[<-|Ib] _]; [reflexivity|].
      apply Hb in Ia. apply Ha in Ib. unfold ge_key in *. lia. }
    assert (a = b).
    { pose proof (Hf (key a)) as Ea. rewrite filter_key_head in Ea.
      rewrite Hab, filter_key_head in Ea. injection Ea as Ea _. exact Ea. }
    subst b. f_equal. apply IH; try assumption.
    intros k. specialize (Hf k). cbn [filter] in Hf.
    destruct (key a =? k)%Z; [injection Hf as Hf|]; exact Hf.
Qed.

(** So every stable sort returns the list of [sorted_desc]. *)
Lemma StableSortedDesc_unique (l s : list A) :
  StableSortedDesc key l s -> s = sorted_desc key l.
Proof.
  intros (_ & Hs & Hf).
  destruct (sorted_desc_stable key l) as (_ & Hs' & Hf').
  apply sorted_desc_unique; try assumption.
  intros k. rewrite Hf, Hf'. reflexivity.
Qed.
End StableUnique.

(** C1: the deduplicator never raises, and what it returns is the result
    of the greedy walk over the pool sorted by area, largest first, by any
    stable sort: a candidate is accepted exactly when its IoU with every
    region accepted before it is at most 0.5, and discarded otherwise.  For
    the pool of A = (0,0,100,100) and B = (10,10,90,90), in either order,
    only A is kept. *)
Theorem remove_overlapping_boxes_greedy (pool : list box) :
  (exists out,
     remove_overlapping_boxes pool = Ok out /\
     forall s, StableSortedDesc area pool s -> Greedy s [] out) /\
  (exists s, StableSortedDesc area pool s) /\
  remove_overlapping_boxes [mkBox 0 0 100 100; mkBox 10 10 90 90]
  = Ok [mkBox 0 0 100 100] /\
  remove_overlapping_boxes [mkBox 10 10 90 90; mkBox 0 0 100 100]
  = Ok [mkBox 0 0 100 100].
Proof.
  split; [|split; [|split; reflexivity]].
  - destruct (dedup_loop_greedy (sorted_desc area pool) [])
      as (out & Ho & Hg).
    exists out. split.
    + destruct pool as [|b pool]; exact Ho.
    + intros s Hs. rewrite (StableSortedDesc_unique area pool s Hs). exact Hg.
  - exists (sorted_desc area pool). apply sorted_desc_stable.
Qed.

Lemma remove_overlapping_boxes_greedy_witness :
  Greedy [mkBox 0 0 100 100; mkBox 10 10 90 90] [] [mkBox 0 0 100 100].
Proof.
  destruct (remove_overlapping_boxes_greedy
              [mkBox 10 10 90 90; mkBox 0 0 100 100])
    as ((out & Ho & Hg) & _).
  vm_compute in Ho. injection Ho as <-.
  apply Hg.
  exact (sorted_desc_stable area [mkBox 10 10 90 90; mkBox 0 0 100 100]).
Defined.

(** ** filter_ui_boxes *)

Lemma Qle_bool_times_0_9 (w n : Z) :
  Qle_bool (inject_Z w) (times_0_9 n) = (10 * w <=? 9 * n)%Z.
Proof.
  apply eq_true_iff_eq.
  unfold Qle_bool, times_0_9, Qmult, inject_Z. cbn [Qnum Qden].
  change (Z.pos (1 * 10)) with 10%Z. rewrite !Z.leb_le. lia.
Qed.

Lemma Qle_nine_tenths (w n : Z) :
  (inject_Z w <= (9 # 10) * inject_Z n)%Q <-> (10 * w <= 9 * n)%Z.
Proof.
  unfold Qle, Qmult, inject_Z. cbn [Qnum Qden].
  change (Z.pos (10 * 1)) with 10%Z. lia.
Qed.

Lemma Qle_bool_div (a b n : Z) :
  (0 < b)%Z ->
  Qle_bool (inject_Z a / inject_Z b) (inject_Z n) = (a <=? n * b)%Z.
Proof.
  intros Hb. apply eq_true_iff_eq.
  rewrite Qle_bool_iff, Z.leb_le.
  unfold inject_Z at 3. rewrite (Qdiv_Z_le a b n 1 Hb). lia.
Qed.

Lemma Qltb_div (a b n : Z) :
  (0 < b)%Z ->
  Qltb (inject_Z a / inject_Z b) (inject_Z n) = (a <? n * b)%Z.
Proof.
  intros Hb. apply eq_true_iff_eq.
  rewrite Qltb_lt, Z.ltb_lt.
  unfold inject_Z at 3. rewrite (Qdiv_Z_lt a b n 1 Hb). lia.
Qed.

Lemma ui_box_ok_plausibleb (shape0 shape1 : Z) (b : box) :
  ui_box_ok shape0 shape1 b = Ok (plausibleb shape1 shape0 b).
Proof.
  unfold ui_box_ok, plausibleb, and_then.
  rewrite !Qle_bool_times_0_9.
  destruct (Z.leb_spec 50 (width b)) as [Hw|_]; [|reflexivity].
  destruct (Z.leb_spec 30 (height b)) as [Hh|_]; [|reflexivity].
  destruct (10 * width b <=? 9 * shape1)%Z; [|reflexivity].
  destruct (10 * height b <=? 9 * shape0)%Z; [|reflexivity].
  rewrite (truediv_pos (width b) (height b)) by lia.
  rewrite (truediv_pos (height b) (width b)) by lia.
  cbn [bind andb].
  change 15%Q with (inject_Z 15).
  rewrite !Qle_bool_div by lia.
  destruct (width b <=? 15 * height b)%Z; reflexivity.
Qed.

Lemma plausibleb_spec (img_w img_h : Z) (b : box) :
  plausibleb img_w img_h b = true <-> plausible img_w img_h b.
Proof.
  unfold plausibleb, plausible.
  rewrite !andb_true_iff, !Z.leb_le.
  split.
  - intros (((((Hw & Hh) & Hiw) & Hih) & Hr1) & Hr2).
    repeat split; try assumption.
    + apply Qle_nine_tenths; assumption.
    + apply Qle_nine_tenths; assumption.
    + change 15%Q with (15 # 1). apply Qdiv_Z_le; lia.
    + change 15%Q with (15 # 1). apply Qdiv_Z_le; lia.
  - intros (Hw & Hh & Hiw & Hih & Hr1 & Hr2).
    change 15%Q with (15 # 1) in Hr1, Hr2.
    assert (Hh0 : (0 < height b)%Z) by lia.
    assert (Hw0 : (0 < width b)%Z) by lia.
    apply (proj1 (Qdiv_Z_le _ _ 15 1 Hh0)) in Hr1.
    apply (proj1 (Qdiv_Z_le _ _ 15 1 Hw0)) in Hr2.
    apply Qle_nine_tenths in Hiw. apply Qle_nine_tenths in Hih.
    repeat split; lia.
Qed.

Lemma filter_ui_boxes_filter (shape0 shape1 : Z) (boxes : list box) :
  filter_ui_boxes shape0 shape1 boxes
  = Ok (filter (plausibleb shape1 shape0) boxes).
Proof.
  induction boxes as [|b boxes IH]; [reflexivity|].
  cbn [filter_ui_boxes filter].
  rewrite ui_box_ok_plausibleb, IH. reflexivity.
Qed.

(** C3: the filter never raises and returns the input list restricted to
    the regions with width >= 50, height >= 30, width <= 0.9 * image width,
    height <= 0.9 * image height, width/height <= 15 and height/width <= 15;
    the survivors keep their input order (and multiplicity). *)
Theorem filter_ui_boxes_plausible (shape0 shape1 : Z) (boxes : list box) :
  exists keep : box -> bool,
    (forall b, keep b = true <-> plausible shape1 shape0 b) /\
    filter_ui_boxes shape0 shape1 boxes = Ok (filter keep boxes).
Proof.
  exists (plausibleb shape1 shape0).
  split; [intros b; apply plausibleb_spec | apply filter_ui_boxes_filter].
Qed.

(** ** The IoU invariant *)

Lemma IoU_ok_sym (a b : box) : IoU_ok a b -> IoU_ok b a.
Proof. unfold IoU_ok. rewrite (IoU_sym b a). trivial. Qed.

Lemma StronglySorted_snoc {A : Type} (R : A -> A -> Prop) (l : list A) (c : A) :
  StronglySorted R l -> Forall (fun e => R e c) l ->
  StronglySorted R (l ++ [c]).
Proof.
  induction 1 as [|a l Hs IH Ha]; intros Hc; simpl.
  - constructor; constructor.
  - inversion Hc as [|? ? Hac Hlc]; subst.
    constructor; [apply IH; assumption|].
    apply Forall_app. split; [assumption|]. constructor; [assumption|constructor].
Qed.

Lemma StronglySorted_filter {A : Type} (R : A -> A -> Prop) (f : A -> bool)
  (l : list A) :
  StronglySorted R l -> StronglySorted R (filter f l).
Proof.
  induction 1 as [|a l Hs IH Ha]; simpl; [constructor|].
  destruct (f a); [|exact IH].
  constructor; [exact IH|].
  rewrite Forall_forall in *. intros b Hb.
  apply filter_In in Hb. apply Ha, Hb.
Qed.

Lemma StronglySorted_nth {A : Type} (R : A -> A -> Prop) (l : list A) :
  StronglySorted R l ->
  forall i j a b, (i < j)%nat ->
    nth_error l i = Some a -> nth_error l j = Some b -> R a b.
Proof.
  induction 1 as [|c l Hs IH Hc]; intros i j a b Hij Hi Hj.
  - destruct i; discriminate.
  - destruct j as [|j]; [lia|]. simpl in Hj.
    destruct i as [|i]; simpl in Hi.
    + injection Hi as <-. rewrite Forall_forall in Hc.
      apply Hc. eapply nth_error_In; eassumption.
    + apply (IH i j); [lia | assumption | assumption].
Qed.

Lemma Greedy_IoU_ok (cands acc out : list box) :
  Greedy cands acc out ->
  StronglySorted IoU_ok acc -> StronglySorted IoU_ok out.
Proof.
  induction 1 as [acc | c cands acc out Hc _ IH | c cands acc out _ _ IH];
    intros Hacc.
  - exact Hacc.
  - apply IH. apply StronglySorted_snoc; [exact Hacc|].
    apply Forall_forall. intros e He. apply IoU_ok_sym, Hc, He.
  - apply IH, Hacc.
Qed.

Lemma StronglySorted_pairwise (l : list box) :
  StronglySorted IoU_ok l -> pairwise_IoU_ok l.
Proof.
  intros Hs i j bi bj Hij Hi Hj.
  destruct (Nat.lt_total i j) as [Hlt|[Heq|Hgt]]; [|contradiction|].
  - exact (StronglySorted_nth _ _ Hs i j bi bj Hlt Hi Hj).
  - apply IoU_ok_sym. exact (StronglySorted_nth _ _ Hs j i bj bi Hgt Hj Hi).
Qed.

Lemma remove_overlapping_boxes_IoU_ok (pool : list box) :
  exists out, remove_overlapping_boxes pool = Ok out /\
              StronglySorted IoU_ok out.
Proof.
  destruct pool as [|b pool].
  - exists []. split; [reflexivity | constructor].
  - unfold remove_overlapping_boxes.
    destruct (dedup_loop_greedy (sorted_desc area (b :: pool)) [])
      as (out & Ho & Hg).
    exists out. split; [exact Ho|].
    eapply Greedy_IoU_ok; [exact Hg | constructor].
Qed.

(** C2: for every pool, deduplication followed by the plausibility filter
    returns a list, and any two regions at different positions of that list
    have IoU at most 0.5. *)
Theorem final_boxes_pairwise_IoU (cv2 : library) (image : Image cv2)
  (pool : list box) :
  exists final_boxes,
    final_boxes_of cv2 image pool = Ok final_boxes /\
    pairwise_IoU_ok final_boxes.
Proof.
  unfold final_boxes_of.
  destruct (remove_overlapping_boxes_IoU_ok pool) as (out & Ho & Hs).
  rewrite Ho. cbn [bind]. rewrite filter_ui_boxes_filter.
  eexists. split; [reflexivity|].
  apply StronglySorted_pairwise, StronglySorted_filter, Hs.
Qed.

Lemma final_boxes_pairwise_IoU_witness :
  (IoU (mkBox 0 0 100 100) (mkBox 40 40 100 60) <= 1 # 2)%Q.
Proof.
  destruct (final_boxes_pairwise_IoU blank_library (@None box)
              [mkBox 10 10 90 90; mkBox 40 40 100 60; mkBox 0 0 100 100;
               mkBox 0 0 20 20])
    as (final_boxes & Hf & Hp).
  vm_compute in Hf. injection Hf as <-.
  apply (Hp 0%nat 1%nat); [discriminate | reflexivity | reflexivity].
Defined.

(** ** detect_edges_multi_threshold *)

Lemma edge_contour_boxes_acceptb (c : contour) :
  edge_contour_boxes c = Ok (if edge_acceptb c then [approx_rect c] else []).
Proof.
  unfold edge_contour_boxes, edge_acceptb, and_then.
  destruct (Qgtb (contourArea c) 500 && (4 <=? approx_len c)%nat);
    [|reflexivity].
  cbn [andb].
  destruct (Z.ltb_spec 30 (width (approx_rect c))) as [Hw|_]; [|reflexivity].
  destruct (Z.ltb_spec 30 (height (approx_rect c))) as [Hh|_]; [|reflexivity].
  rewrite (truediv_pos (width (approx_rect c)) (height (approx_rect c))) by lia.
  rewrite (truediv_pos (height (approx_rect c)) (width (approx_rect c))) by lia.
  cbn [bind andb].
  change 10%Q with (inject_Z 10).
  rewrite !Qltb_div by lia.
  destruct (width (approx_rect c) <? 10 * height (approx_rect c))%Z;
    reflexivity.
Qed.

Lemma edge_acceptb_spec (c : contour) :
  edge_acceptb c = true <-> edge_accepted c.
Proof.
  unfold edge_acceptb, edge_accepted.
  rewrite !andb_true_iff, !Z.ltb_lt, Nat.leb_le.
  unfold Qgtb. rewrite Qltb_lt.
  split.
  - intros (((((Ha & Hn) & Hw) & Hh) & Hr1) & Hr2).
    repeat split; try assumption.
    + change 10%Q with (10 # 1). apply Qdiv_Z_lt; lia.
    + change 10%Q with (10 # 1). apply Qdiv_Z_lt; lia.
  - intros (Ha & Hn & Hw & Hh & Hr1 & Hr2).
    change 10%Q with (10 # 1) in Hr1, Hr2.
    assert (Hh0 : (0 < height (approx_rect c))%Z) by lia.
    assert (Hw0 : (0 < width (approx_rect c))%Z) by lia.
    apply (proj1 (Qdiv_Z_lt _ _ 10 1 Hh0)) in Hr1.
    apply (proj1 (Qdiv_Z_lt _ _ 10 1 Hw0)) in Hr2.
    repeat split; try assumption; lia.
Qed.

Lemma for_each_pure {A : Type} (l : list A) (body : A -> result (list box))
  (f : A -> list box) :
  (forall a, body a = Ok (f a)) ->
  for_each l body = Ok (flat_map f l).
Proof.
  intros Hb. induction l as [|a l IH]; [reflexivity|].
  cbn [for_each flat_map]. rewrite Hb, IH. reflexivity.
Qed.

Lemma flat_map_if_filter {A B : Type} (p : A -> bool) (g : A -> B) (l : list A) :
  flat_map (fun a => if p a then [g a] else []) l = map g (filter p l).
Proof.
  induction l as [|a l IH]; [reflexivity|].
  cbn [flat_map filter]. rewrite IH. destruct (p a); reflexivity.
Qed.

(** C8, as the code has it: a contour becomes a region exactly when its
    area exceeds 500, its polygon has at least 4 vertices, the bounding box
    of the polygon is more than 30 wide and more than 30 high, and both
    width/height and height/width are strictly below 10; the generator
    returns, for each threshold pair in turn, the boxes of the accepted
    contours in contour order. *)
Theorem detect_edges_multi_threshold_accepts :
  exists accept : contour -> bool,
    (forall c, accept c = true <-> edge_accepted c) /\
    (forall c, edge_contour_boxes c
               = Ok (if accept c then [approx_rect c] else [])) /\
    forall contours_at,
      detect_edges_multi_threshold contours_at =
      Ok (flat_map
            (fun lh => map approx_rect
                         (filter accept (contours_at (fst lh) (snd lh))))
            canny_thresholds).
Proof.
  exists edge_acceptb.
  split; [exact edge_acceptb_spec|].
  split; [exact edge_contour_boxes_acceptb|].
  intros contours_at. unfold detect_edges_multi_threshold.
  apply for_each_pure. intros lh.
  rewrite <- flat_map_if_filter.
  apply for_each_pure. exact edge_contour_boxes_acceptb.
Qed.

(** C8, as stated, fails on a 400 x 40 box: its ratio is exactly 10:1,
    within 10:1, and the generator rejects it. *)
Lemma edge_ratio_10_rejected :
  edge_within_10_to_1 (full_contour (mkBox 5 5 400 40)) /\
  edge_contour_boxes (full_contour (mkBox 5 5 400 40)) = Ok [] /\
  detect_edges_multi_threshold (fun _ _ => [full_contour (mkBox 5 5 400 40)])
  = Ok [] /\
  ~ (forall c, edge_contour_boxes c = Ok [approx_rect c]
               <-> edge_within_10_to_1 c).
Proof.
  assert (H : edge_within_10_to_1 (full_contour (mkBox 5 5 400 40))).
  { unfold edge_within_10_to_1, full_contour; cbn.
    repeat split; try lia; try (vm_compute; discriminate). }
  split; [exact H|]. split; [reflexivity|]. split; [reflexivity|].
  intros Hall. apply Hall in H. discriminate H.
Qed.

(** ** detect_lines_boxes *)

Lemma corner_boxes_size (h_line v_line : Z * Z * Z) (b : box) :
  In b (corner_boxes h_line v_line) ->
  (30 < width b)%Z /\ (30 < height b)%Z.
Proof.
  destruct h_line as [[h0 h1] h2], v_line as [[v0 v1] v2].
  unfold corner_boxes.
  destruct ((np_abs (np_sub h2 v0) <? 20)%Z || (np_abs (np_sub h2 v1) <? 20)%Z);
    [|intros []].
  destruct (Z.ltb_spec 30 (np_abs (np_sub h1 h0))) as [Hw|_]; [|intros []].
  destruct (Z.ltb_spec 30 (np_abs (np_sub v1 v0))) as [Hh|_]; [|intros []].
  intros [<-|[]]. simpl. split; assumption.
Qed.

(** C10: every region returned by the line-intersection generator is more
    than 30 wide and more than 30 high (the size test is applied to the
    absolute differences), so none has a zero or negative side. *)
Theorem detect_lines_boxes_size (lines : option (list line)) (b : box) :
  In b (detect_lines_boxes lines) ->
  (30 < width b)%Z /\ (30 < height b)%Z.
Proof.
  unfold detect_lines_boxes. destruct lines as [ls|]; [|intros []].
  destruct (fold_left classify_line ls ([], [])) as [hs vs].
  intros Hin. apply in_flat_map in Hin. destruct Hin as (h_line & _ & Hin).
  apply in_flat_map in Hin. destruct Hin as (v_line & _ & Hin).
  eapply corner_boxes_size; eassumption.
Qed.

Lemma detect_lines_boxes_size_witness :
  detect_lines_boxes (Some [(0, 0, 100, 2); (3, 60, 0, 5); (7, 7, 90, 90)])
  = [mkBox 3 0 100 55] /\
  (30 < 100)%Z /\ (30 < 55)%Z.
Proof.
  split; [reflexivity|].
  apply (detect_lines_boxes_size
           (Some [(0, 0, 100, 2); (3, 60, 0, 5); (7, 7, 90, 90)])
           (mkBox 3 0 100 55)).
  vm_compute. left. reflexivity.
Defined.

(** ** The argument and image-load guards *)

(** C4: without an image-path argument the script prints the empty list
    ([json.dumps([])], that is [[]]) and exits with status 0; with a path
    that [cv2.imread] cannot load it prints the empty list and exits with
    status 1.  In both cases nothing else is printed and no image is
    written. *)
Theorem main_unusable_input (cv2 : library) (argv : list string) :
  ((List.length argv < 2)%nat ->
   main cv2 argv = mkOutcome ["[]"%string] [] 0) /\
  (forall prog image_path rest,
     argv = prog :: image_path :: rest ->
     imread cv2 image_path = None ->
     main cv2 argv = mkOutcome ["[]"%string] [] 1 /\
     exit_status (main cv2 argv) <> 0%Z /\
     exit_status (main cv2 argv) <> exit_status (main cv2 [prog])).
Proof.
  split.
  - intros Hlen. unfold main.
    destruct (Nat.ltb_spec (List.length argv) 2) as [_|Hge]; [reflexivity|lia].
  - intros prog image_path rest -> Hread.
    assert (E : main cv2 (prog :: image_path :: rest)
                = mkOutcome ["[]"%string] [] 1).
    { unfold main. cbn [List.length Nat.ltb Nat.leb nth]. rewrite Hread.
      reflexivity. }
    rewrite E. split; [reflexivity|]. split; discriminate.
Qed.

Lemma main_unusable_input_witness :
  main blank_library ["detect_ui.py"%string]
  = mkOutcome ["[]"%string] [] 0 /\
  main blank_library ["detect_ui.py"; "missing.png"]%string
  = mkOutcome ["[]"%string] [] 1.
Proof.
  split.
  - apply (main_unusable_input blank_library ["detect_ui.py"%string]).
    simpl. lia.
  - eapply (main_unusable_input blank_library
              ["detect_ui.py"; "missing.png"]%string);
      reflexivity.
Defined.

(** ** The labelling loop *)

Lemma str_inj (n m : nat) : str n = str m -> n = m.
Proof.
  unfold str. intros E.
  apply (f_equal NilEmpty.uint_of_string) in E.
  rewrite !NilEmpty.usu in E. injection E as E.
  apply (f_equal Nat.of_uint) in E.
  rewrite !Unsigned.of_to in E. exact E.
Qed.

Lemma ui_label_inj (n m : nat) : ui_label n = ui_label m -> n = m.
Proof.
  unfold ui_label. cbn [append]. intros E.
  injection E as E. apply str_inj, E.
Qed.

Lemma NoDup_map_inj {A B : Type} (f : A -> B) (l : list A) :
  (forall a b, f a = f b -> a = b) -> NoDup l -> NoDup (map f l).
Proof.
  intros Hf. induction 1 as [|a l Ha Hl IH]; simpl; constructor.
  - intros Hin. apply in_map_iff in Hin. destruct Hin as (b & Hb & Hin).
    apply Hf in Hb. subst b. contradiction.
  - exact IH.
Qed.

Section Labelling.
Variable cv2 : library.
Variable image : Image cv2.

Lemma label_loop_labels (l : list box) :
  forall i acc,
    map label (label_loop cv2 image i l acc)
    = map label acc ++ map ui_label (seq (S i) (List.length l)).
Proof.
  induction l as [|b l IH]; intros i acc; simpl.
  - rewrite app_nil_r. reflexivity.
  - rewrite IH, map_app, <- app_assoc. simpl.
    rewrite Nat.add_1_r. reflexivity.
Qed.

Lemma label_loop_regions (l : list box) :
  forall i acc,
    map region (label_loop cv2 image i l acc) = map region acc ++ l.
Proof.
  induction l as [|b l IH]; intros i acc; simpl.
  - rewrite app_nil_r. reflexivity.
  - rewrite IH, map_app, <- app_assoc. reflexivity.
Qed.

Lemma label_loop_labelled_from (l : list box) :
  forall i acc,
    label_loop cv2 image i l acc = acc ++ labelled_from cv2 image i l.
Proof.
  induction l as [|b l IH]; intros i acc; simpl.
  - rewrite app_nil_r. reflexivity.
  - rewrite IH, <- app_assoc. reflexivity.
Qed.

Lemma labelled_from_nth (l : list box) :
  forall i k b,
    nth_error l k = Some b ->
    nth_error (labelled_from cv2 image i l) k
    = Some (label_box cv2 image (i + k) b).
Proof.
  induction l as [|c l IH]; intros i k b Hk.
  - destruct k; discriminate.
  - destruct k as [|k]; simpl in *.
    + injection Hk as ->. rewrite Nat.add_0_r. reflexivity.
    + rewrite (IH (S i) k b Hk), Nat.add_succ_r. reflexivity.
Qed.

Lemma label_boxes_nth (l : list box) (k : nat) (b : box) :
  nth_error l k = Some b ->
  nth_error (label_boxes cv2 image l) k = Some (label_box cv2 image k b).
Proof.
  intros Hk. unfold label_boxes.
  rewrite label_loop_labelled_from. simpl.
  apply (labelled_from_nth l 0 k b Hk).
Qed.

Lemma label_boxes_length (l : list box) :
  List.length (label_boxes cv2 image l) = List.length l.
Proof.
  rewrite <- (length_map region). unfold label_boxes.
  rewrite label_loop_regions. reflexivity.
Qed.
End Labelling.

Lemma run_printed (cv2 : library) (image_path : string) (image : Image cv2)
  (final_boxes : list box) (document : string) :
  (pool <- all_boxes cv2 image ;; final_boxes_of cv2 image pool)
  = Ok final_boxes ->
  json_dumps cv2 (label_boxes cv2 image final_boxes) = Ok document ->
  run cv2 image_path image
  = mkOutcome [document] [output_path image_path]
      match imwrite cv2 (output_path image_path) image with
      | Ok _ => 0
      | Raise _ => 1
      end.
Proof.
  intros E Hj. unfold run.
  destruct (all_boxes cv2 image) as [pool|]; [|discriminate].
  cbn [bind] in *. rewrite E. cbn [bind]. rewrite Hj.
  destruct (imwrite cv2 (output_path image_path) image); reflexivity.
Qed.

(** C5: for a final list of k regions the labels, in output order, are
    UI1, UI2, ..., UIk: none is missing, none is repeated, and the i-th
    output entry carries the i-th region with the label UIi. *)
Theorem labels_UI1_to_UIk (cv2 : library) (image : Image cv2)
  (final_boxes : list box) :
  map label (label_boxes cv2 image final_boxes)
  = map ui_label (seq 1 (List.length final_boxes)) /\
  map region (label_boxes cv2 image final_boxes) = final_boxes /\
  NoDup (map label (label_boxes cv2 image final_boxes)) /\
  forall i b,
    nth_error final_boxes i = Some b ->
    exists lb,
      nth_error (label_boxes cv2 image final_boxes) i = Some lb /\
      region lb = b /\ label lb = ui_label (i + 1).
Proof.
  assert (Hl : map label (label_boxes cv2 image final_boxes)
               = map ui_label (seq 1 (List.length final_boxes)))
    by (unfold label_boxes; rewrite label_loop_labels; reflexivity).
  split; [exact Hl|].
  split; [unfold label_boxes; rewrite label_loop_regions; reflexivity|].
  split.
  - rewrite Hl. apply NoDup_map_inj; [exact ui_label_inj | apply seq_NoDup].
  - intros i b Hi. exists (label_box cv2 image i b).
    split; [apply label_boxes_nth, Hi|]. split; reflexivity.
Qed.

Lemma labels_UI1_to_UIk_witness :
  exists lb,
    nth_error
      (label_boxes blank_library None
         [mkBox 0 0 100 60; mkBox 200 0 80 40; mkBox 0 300 70 70]) 2
    = Some lb /\
    region lb = mkBox 0 300 70 70 /\ label lb = "UI3"%string.
Proof.
  apply (labels_UI1_to_UIk blank_library None
           [mkBox 0 0 100 60; mkBox 200 0 80 40; mkBox 0 300 70 70]).
  reflexivity.
Defined.

(** C6: when text extraction raises on the crop of the region at position
    [i], the labelling loop still makes one entry per region and, provided
    [json.dumps] accepts the list, the list is printed and the script goes
    on to write the annotated image: its exit status is that of a run
    without the failure, 0 when [cv2.imwrite] returns and 1 when it raises.
    The entry at [i] has the region's geometry, its label, the colour
    fingerprint of its crop and the empty text; every entry [j] is made of
    region [j], its own label, the fingerprint of its own crop and, when
    its own extraction returns a text, that text, and it is the same entry
    whatever text extraction does on the other crops. *)
Theorem text_failure_is_local (cv2 : library) (image_path : string)
  (image : Image cv2) (final_boxes : list box) (i : nat) (b : box) (e : exn)
  (document : string) :
  (pool <- all_boxes cv2 image ;; final_boxes_of cv2 image pool)
  = Ok final_boxes ->
  nth_error final_boxes i = Some b ->
  extract_text_from_roi cv2 (crop cv2 image b) = Raise e ->
  json_dumps cv2 (label_boxes cv2 image final_boxes) = Ok document ->
  stdout (run cv2 image_path image) = [document] /\
  written (run cv2 image_path image) = [output_path image_path] /\
  (forall ok,
     imwrite cv2 (output_path image_path) image = Ok ok ->
     run cv2 image_path image
     = mkOutcome [document] [output_path image_path] 0) /\
  (forall e',
     imwrite cv2 (output_path image_path) image = Raise e' ->
     run cv2 image_path image
     = mkOutcome [document] [output_path image_path] 1) /\
  List.length (label_boxes cv2 image final_boxes) = List.length final_boxes /\
  nth_error (label_boxes cv2 image final_boxes) i
  = Some (mkLabeled b (ui_label (i + 1))
            (get_color_fingerprint cv2 (crop cv2 image b)) EmptyString) /\
  forall j bj,
    nth_error final_boxes j = Some bj ->
    exists lb,
      nth_error (label_boxes cv2 image final_boxes) j = Some lb /\
      region lb = bj /\
      label lb = ui_label (j + 1) /\
      color_fingerprint lb = get_color_fingerprint cv2 (crop cv2 image bj) /\
      (forall t,
         extract_text_from_roi cv2 (crop cv2 image bj) = Ok t ->
         text lb = t) /\
      forall ocr : Image cv2 -> result string,
        ocr (crop cv2 image bj) = image_to_string cv2 (crop cv2 image bj) ->
        nth_error
          (label_boxes (with_image_to_string cv2 ocr) image final_boxes) j
        = Some lb.
Proof.
  intros Hrun Hi Hraise Hjson.
  pose proof (run_printed cv2 image_path image final_boxes document
                Hrun Hjson) as Hp.
  split; [rewrite Hp; reflexivity|].
  split; [rewrite Hp; reflexivity|].
  split; [intros ok Hw; rewrite Hp, Hw; reflexivity|].
  split; [intros e' Hw; rewrite Hp, Hw; reflexivity|].
  split; [apply label_boxes_length|].
  split.
  - rewrite (label_boxes_nth cv2 image final_boxes i b Hi).
    unfold label_box. rewrite Hraise. reflexivity.
  - intros j bj Hj. exists (label_box cv2 image j bj).
    split; [apply label_boxes_nth, Hj|].
    do 3 (split; [reflexivity|]).
    split.
    + intros t Ht. unfold label_box. cbn [text]. rewrite Ht. reflexivity.
    + intros ocr Hocr.
      rewrite (label_boxes_nth (with_image_to_string cv2 ocr) image
                 final_boxes j bj Hj).
      unfold label_box, extract_text_from_roi, with_image_to_string.
      cbn [crop image_to_string strip]. rewrite Hocr. reflexivity.
Qed.

Lemma text_failure_is_local_witness :
  run two_buttons_library "screen.png" None
  = mkOutcome ["UI1,UI2"%string] ["screen_annotated.png"%string] 0 /\
  run two_buttons_library "upload_ab12" None
  = mkOutcome ["UI1,UI2"%string] ["upload_ab12"%string] 1 /\
  label_boxes two_buttons_library None
    [mkBox 0 0 100 60; mkBox 200 200 120 50]
  = [mkLabeled (mkBox 0 0 100 60) "UI1" [10; 20; 30]%Q EmptyString;
     mkLabeled (mkBox 200 200 120 50) "UI2" [10; 20; 30]%Q "Save"%string].
Proof.
  destruct (text_failure_is_local two_buttons_library "screen.png" None
              [mkBox 0 0 100 60; mkBox 200 200 120 50] 0 (mkBox 0 0 100 60)
              OtherError "UI1,UI2" eq_refl eq_refl eq_refl eq_refl)
    as (_ & _ & Hok & _).
  destruct (text_failure_is_local two_buttons_library "upload_ab12" None
              [mkBox 0 0 100 60; mkBox 200 200 120 50] 0 (mkBox 0 0 100 60)
              OtherError "UI1,UI2" eq_refl eq_refl eq_refl eq_refl)
    as (_ & _ & _ & Hraise & _).
  split; [exact (Hok true eq_refl)|].
  split; [exact (Hraise OtherError eq_refl) | reflexivity].
Defined.

(** ** output_path *)

(** On a name whose only ["."] is the one of its [".png"] suffix, the
    replacement is the replacement of the suffix. *)
Lemma output_path_dotless (stem : string) :
  dotless stem = true ->
  output_path (stem ++ ".png") = (stem ++ "_annotated.png")%string /\
  replace_suffix (stem ++ ".png") ".png" "_annotated.png"
  = Some (stem ++ "_annotated.png")%string.
Proof.
  unfold output_path, str_replace.
  induction stem as [|c stem IH]; intros Hd.
  - split; reflexivity.
  - cbn [dotless] in Hd. apply andb_true_iff in Hd. destruct Hd as [Hc Hd].
    apply negb_true_iff, Ascii.eqb_neq in Hc.
    destruct (IH Hd) as [IH1 IH2].
    split.
    + cbn [append replace_from prefix].
      destruct (ascii_dec "." c) as [E|_]; [congruence|].
      rewrite IH1. reflexivity.
    + cbn [append replace_suffix String.eqb].
      destruct (Ascii.eqb_spec c ".") as [E|_]; [congruence|].
      cbn [append] in IH2. rewrite IH2. reflexivity.
Qed.

(** C7 at a path with [".png"] in a directory name: [str.replace] rewrites
    both occurrences, so the annotated image is not named by replacing the
    suffix and does not land in the directory of the input. *)
Theorem output_path_replaces_every_occurrence :
  output_path "/data/ui.png_shots/login.png"
  = "/data/ui_annotated.png_shots/login_annotated.png"%string /\
  replace_suffix "/data/ui.png_shots/login.png" ".png" "_annotated.png"
  = Some "/data/ui.png_shots/login_annotated.png"%string /\
  dirname (output_path "/data/ui.png_shots/login.png")
  <> dirname "/data/ui.png_shots/login.png" /\
  output_path "capture.jpg" = "capture.jpg"%string.
Proof.
  split; [reflexivity|]. split; [reflexivity|].
  split; [vm_compute; discriminate | reflexivity].
Qed.

(** * Further properties *)

(** ** What the deduplicator keeps *)

Lemma subseq_refl {A : Type} (l : list A) : subseq l l.
Proof. induction l; constructor; assumption. Qed.

Lemma subseq_length {A : Type} (l1 l2 : list A) :
  subseq l1 l2 -> (List.length l1 <= List.length l2)%nat.
Proof. induction 1; simpl; lia. Qed.

Lemma subseq_incl {A : Type} (l1 l2 : list A) :
  subseq l1 l2 -> incl l1 l2.
Proof.
  induction 1 as [|a l1 l2 _ IH|a l1 l2 _ IH]; intros b Hb.
  - exact Hb.
  - right. apply IH, Hb.
  - destruct Hb as [<-|Hb]; [left; reflexivity | right; apply IH, Hb].
Qed.

Lemma subseq_trans {A : Type} (l1 l2 l3 : list A) :
  subseq l1 l2 -> subseq l2 l3 -> subseq l1 l3.
Proof.
  intros H12 H23. revert l1 H12.
  induction H23 as [|a l2 l3 _ IH|a l2 l3 _ IH]; intros l1 H12.
  - exact H12.
  - constructor. apply IH, H12.
  - inversion H12; subst.
    + constructor. apply IH. assumption.
    + apply subseq_take. apply IH. assumption.
Qed.

Lemma subseq_filter {A : Type} (f : A -> bool) (l : list A) :
  subseq (filter f l) l.
Proof.
  induction l as [|a l IH]; simpl; [constructor|].
  destruct (f a); constructor; exact IH.
Qed.

Lemma subseq_StronglySorted {A : Type} (R : A -> A -> Prop) (l1 l2 : list A) :
  subseq l1 l2 -> StronglySorted R l2 -> StronglySorted R l1.
Proof.
  induction 1 as [|a l1 l2 Hs IH|a l1 l2 Hs IH]; intros H2.
  - constructor.
  - inversion H2; subst. apply IH. assumption.
  - inversion H2 as [|? ? Hs2 Ha]; subst.
    constructor; [apply IH; assumption|].
    rewrite Forall_forall in *. intros b Hb.
    apply Ha. eapply subseq_incl; eassumption.
Qed.

Lemma dedup_loop_subseq (cands : list box) :
  forall acc, exists kept,
    dedup_loop cands acc = Ok (acc ++ kept) /\ subseq kept cands.
Proof.
  induction cands as [|c cands IH]; intros acc; simpl.
  - exists []. rewrite app_nil_r. split; [reflexivity | constructor].
  - destruct (is_duplicate_spec c acc) as (d & Hd & _).
    rewrite Hd. cbn [bind]. destruct d.
    + destruct (IH acc) as (kept & Hk & Hs).
      exists kept. split; [exact Hk | constructor; exact Hs].
    + destruct (IH (acc ++ [c])) as (kept & Hk & Hs).
      exists (c :: kept). rewrite <- app_assoc in Hk.
      split; [exact Hk | constructor; exact Hs].
Qed.

Lemma remove_overlapping_boxes_subseq (pool : list box) :
  exists out,
    remove_overlapping_boxes pool = Ok out /\
    subseq out (sorted_desc area pool).
Proof.
  destruct pool as [|b pool].
  - exists []. split; [reflexivity | constructor].
  - destruct (dedup_loop_subseq (sorted_desc area (b :: pool)) [])
      as (kept & Hk & Hs).
    exists kept. split; [exact Hk | exact Hs].
Qed.

(** X1: the regions only get fewer: the final list is the deduplicated
    list with some regions left out, which is the sorted pool with some
    regions left out; so the sizes decrease and every final region is a
    region of the pool. *)
Theorem final_boxes_monotone (cv2 : library) (image : Image cv2)
  (pool : list box) :
  exists deduplicated final_boxes,
    remove_overlapping_boxes pool = Ok deduplicated /\
    final_boxes_of cv2 image pool = Ok final_boxes /\
    subseq final_boxes deduplicated /\
    subseq deduplicated (sorted_desc area pool) /\
    (List.length final_boxes <= List.length deduplicated
     <= List.length pool)%nat /\
    incl final_boxes pool.
Proof.
  destruct (remove_overlapping_boxes_subseq pool) as (out & Ho & Hs).
  exists out, (filter (plausibleb (shape1 cv2 image) (shape0 cv2 image)) out).
  pose proof (subseq_filter
                (plausibleb (shape1 cv2 image) (shape0 cv2 image)) out) as Hf.
  split; [exact Ho|]. split.
  { unfold final_boxes_of. rewrite Ho. cbn [bind].
    apply filter_ui_boxes_filter. }
  split; [exact Hf|]. split; [exact Hs|]. split.
  - split; [apply subseq_length, Hf|].
    rewrite (Permutation_length (sorted_desc_perm area pool)).
    apply subseq_length, Hs.
  - intros b Hb.
    apply (Permutation_in b (Permutation_sym (sorted_desc_perm area pool))).
    eapply subseq_incl; [exact Hs|]. eapply subseq_incl; [exact Hf | exact Hb].
Qed.

(** X2: the deduplicated list and the final list are in descending order
    of area. *)
Theorem final_boxes_sorted_by_area (cv2 : library) (image : Image cv2)
  (pool : list box) :
  exists deduplicated final_boxes,
    remove_overlapping_boxes pool = Ok deduplicated /\
    final_boxes_of cv2 image pool = Ok final_boxes /\
    StronglySorted (ge_key area) deduplicated /\
    StronglySorted (ge_key area) final_boxes.
Proof.
  destruct (remove_overlapping_boxes_subseq pool) as (out & Ho & Hs).
  exists out, (filter (plausibleb (shape1 cv2 image) (shape0 cv2 image)) out).
  assert (Hsorted : StronglySorted (ge_key area) out)
    by (eapply subseq_StronglySorted; [exact Hs | apply sorted_desc_sorted]).
  split; [exact Ho|]. split.
  { unfold final_boxes_of. rewrite Ho. cbn [bind].
    apply filter_ui_boxes_filter. }
  split; [exact Hsorted | apply StronglySorted_filter, Hsorted].
Qed.

Lemma sorted_desc_head_max {A : Type} (key : A -> Z) (l : list A) (a : A)
  (s : list A) :
  sorted_desc key l = a :: s ->
  In a l /\ forall c, In c l -> (key c <= key a)%Z.
Proof.
  intros E.
  pose proof (sorted_desc_perm key l) as Hp.
  pose proof (sorted_desc_sorted key l) as Hs.
  rewrite E in Hp, Hs.
  split.
  - apply (Permutation_in a (Permutation_sym Hp)). left. reflexivity.
  - intros c Hc. apply (Permutation_in c Hp) in Hc.
    inversion Hs as [|? ? _ Ha]; subst. rewrite Forall_forall in Ha.
    destruct Hc as [<-|Hc]; [lia | apply Ha, Hc].
Qed.

(** X3: from a pool that is not empty the deduplicator keeps at least
    one region, and the first region it returns is a region of the pool of
    the largest area. *)
Theorem largest_region_is_kept (pool : list box) :
  pool <> [] ->
  exists b rest,
    remove_overlapping_boxes pool = Ok (b :: rest) /\
    In b pool /\
    forall c, In c pool -> (area c <= area b)%Z.
Proof.
  intros Hne.
  destruct (sorted_desc area pool) as [|b s] eqn:E.
  - exfalso. apply Hne. apply Permutation_nil.
    rewrite <- E. apply Permutation_sym, sorted_desc_perm.
  - destruct (dedup_loop_subseq s [b]) as (kept & Hk & _).
    exists b, kept. split.
    + destruct pool as [|p pool]; [contradiction|].
      unfold remove_overlapping_boxes. rewrite E. exact Hk.
    + exact (sorted_desc_head_max area pool b s E).
Qed.

Lemma largest_region_is_kept_witness :
  exists b rest,
    remove_overlapping_boxes
      [mkBox 0 0 60 40; mkBox 5 5 200 100; mkBox 300 0 200 100]
    = Ok (b :: rest) /\
    In b [mkBox 0 0 60 40; mkBox 5 5 200 100; mkBox 300 0 200 100] /\
    forall c,
      In c [mkBox 0 0 60 40; mkBox 5 5 200 100; mkBox 300 0 200 100] ->
      (area c <= area b)%Z.
Proof.
  apply (largest_region_is_kept
           [mkBox 0 0 60 40; mkBox 5 5 200 100; mkBox 300 0 200 100]).
  discriminate.
Defined.

Lemma Greedy_incl (cands acc out : list box) :
  Greedy cands acc out -> incl acc out.
Proof.
  induction 1 as [acc | c cands acc out _ _ IH | c cands acc out _ _ IH].
  - apply incl_refl.
  - intros e He. apply IH. apply in_or_app. left. exact He.
  - exact IH.
Qed.

Lemma Greedy_covers (cands acc out : list box) :
  Greedy cands acc out ->
  StronglySorted (ge_key area) cands ->
  (forall e c, In e acc -> In c cands -> (area c <= area e)%Z) ->
  forall c, In c cands ->
    In c out \/
    exists e, In e out /\ (area c <= area e)%Z /\ (1 # 2 < IoU c e)%Q.
Proof.
  induction 1 as [acc | c cands acc out Hc Hg IH | c cands acc out Hc Hg IH];
    intros Hs Hacc b Hb.
  - destruct Hb.
  - inversion Hs as [|? ? Hs' Hhead]; subst. rewrite Forall_forall in Hhead.
    destruct Hb as [<-|Hb].
    + left. apply (Greedy_incl _ _ _ Hg). apply in_or_app. right. left.
      reflexivity.
    + apply IH; [exact Hs' | | exact Hb].
      intros e c' He Hc'. apply in_app_or in He. destruct He as [He|[<-|[]]].
      * apply Hacc; [exact He | right; exact Hc'].
      * apply Hhead, Hc'.
  - inversion Hs as [|? ? Hs' Hhead]; subst.
    destruct Hb as [<-|Hb].
    + right. destruct Hc as (e & He & Hn). exists e.
      split; [apply (Greedy_incl _ _ _ Hg), He|].
      split; [apply Hacc; [exact He | left; reflexivity]|].
      apply Qnot_le_lt, Hn.
    + apply IH; [exact Hs' | | exact Hb].
      intros e c' He Hc'. apply Hacc; [exact He | right; exact Hc'].
Qed.

(** X4: a region of the pool that the deduplicator drops is covered by a
    region it keeps: one of at least the same area whose IoU with the
    dropped region is above 0.5. *)
Theorem dropped_region_is_covered (pool out : list box) (b : box) :
  remove_overlapping_boxes pool = Ok out ->
  In b pool ->
  In b out \/
  exists e, In e out /\ (area b <= area e)%Z /\ (1 # 2 < IoU b e)%Q.
Proof.
  intros Ho Hb.
  destruct (dedup_loop_greedy (sorted_desc area pool) []) as (out' & Ho' & Hg).
  assert (out' = out).
  { destruct pool as [|p pool]; [destruct Hb|].
    unfold remove_overlapping_boxes in Ho. congruence. }
  subst out'.
  apply (Greedy_covers _ _ _ Hg).
  - apply sorted_desc_sorted.
  - intros e c [].
  - apply (Permutation_in b (sorted_desc_perm area pool)), Hb.
Qed.

Lemma dropped_region_is_covered_witness :
  exists e,
    In e [mkBox 0 0 100 100] /\
    (area (mkBox 10 10 90 90) <= area e)%Z /\
    (1 # 2 < IoU (mkBox 10 10 90 90) e)%Q.
Proof.
  destruct (dropped_region_is_covered
              [mkBox 10 10 90 90; mkBox 0 0 100 100] [mkBox 0 0 100 100]
              (mkBox 10 10 90 90) eq_refl (or_introl eq_refl))
    as [[E|[]]|H].
  - discriminate E.
  - exact H.
Defined.

Lemma is_duplicate_false (b : box) (acc : list box) :
  (forall e, In e acc -> IoU_ok b e) -> is_duplicate b acc = Ok false.
Proof.
  intros Hok. destruct (is_duplicate_spec b acc) as (d & Hd & _ & Ht).
  destruct d; [|exact Hd].
  destruct (Ht eq_refl) as (e & He & Hn). exfalso. apply Hn, Hok, He.
Qed.

Lemma StronglySorted_before {A : Type} (R : A -> A -> Prop) (l1 l2 : list A)
  (a : A) :
  StronglySorted R (l1 ++ a :: l2) -> forall e, In e l1 -> R e a.
Proof.
  induction l1 as [|c l1 IH]; intros Hs e He; [destruct He|].
  simpl in Hs. inversion Hs as [|? ? Hs' Hc]; subst.
  destruct He as [<-|He].
  - rewrite Forall_forall in Hc. apply Hc. apply in_or_app. right. left.
    reflexivity.
  - apply IH; assumption.
Qed.

Lemma dedup_loop_all_kept (cands : list box) :
  forall acc,
    StronglySorted IoU_ok (acc ++ cands) ->
    dedup_loop cands acc = Ok (acc ++ cands).
Proof.
  induction cands as [|c cands IH]; intros acc Hs; simpl.
  - rewrite app_nil_r. reflexivity.
  - rewrite is_duplicate_false.
    + cbn [bind]. replace (acc ++ c :: cands) with ((acc ++ [c]) ++ cands)
        by (rewrite <- app_assoc; reflexivity).
      apply IH. rewrite <- app_assoc. exact Hs.
    + intros e He. apply IoU_ok_sym.
      exact (StronglySorted_before _ _ _ _ Hs e He).
Qed.

Lemma NoDup_pairwise_StronglySorted {A : Type} (R : A -> A -> Prop)
  (l : list A) :
  NoDup l ->
  (forall a b, In a l -> In b l -> a <> b -> R a b) ->
  StronglySorted R l.
Proof.
  induction 1 as [|a l Ha Hl IH]; intros HR; constructor.
  - apply IH. intros b c Hb Hc. apply HR; right; assumption.
  - apply Forall_forall. intros b Hb.
    apply HR; [left; reflexivity | right; exact Hb|].
    intros ->. contradiction.
Qed.

(** X5: when the regions of the pool are distinct and no two of them have
    an IoU above 0.5, the deduplicator drops nothing: it returns the pool
    sorted by area, largest first, ties in pool order. *)
Theorem nothing_dropped_without_overlap (pool : list box) :
  NoDup pool ->
  (forall a b, In a pool -> In b pool -> a <> b -> (IoU a b <= 1 # 2)%Q) ->
  remove_overlapping_boxes pool = Ok (sorted_desc area pool).
Proof.
  intros Hnd Hok.
  destruct pool as [|p pool]; [reflexivity|].
  unfold remove_overlapping_boxes.
  apply (dedup_loop_all_kept (sorted_desc area (p :: pool)) []).
  pose proof (sorted_desc_perm area (p :: pool)) as Hp.
  apply NoDup_pairwise_StronglySorted.
  - exact (Permutation_NoDup Hp Hnd).
  - intros a b Ha Hb Hab.
    apply Hok; try assumption;
      eapply Permutation_in; try apply Permutation_sym; eassumption.
Qed.

Lemma nothing_dropped_without_overlap_witness :
  remove_overlapping_boxes
    [mkBox 0 0 60 40; mkBox 300 0 200 100; mkBox 40 20 60 40]
  = Ok [mkBox 300 0 200 100; mkBox 0 0 60 40; mkBox 40 20 60 40].
Proof.
  apply (nothing_dropped_without_overlap
           [mkBox 0 0 60 40; mkBox 300 0 200 100; mkBox 40 20 60 40]).
  - repeat constructor; simpl; intuition discriminate.
  - intros a b Ha Hb Hab. simpl in Ha, Hb.
    destruct Ha as [<-|[<-|[<-|[]]]]; destruct Hb as [<-|[<-|[<-|[]]]];
      try (exfalso; apply Hab; reflexivity); vm_compute; discriminate.
Defined.

Lemma sorted_desc_of_sorted {A : Type} (key : A -> Z) (l : list A) :
  StronglySorted (ge_key key) l -> sorted_desc key l = l.
Proof.
  intros Hs. apply sorted_desc_unique with (key := key).
  - apply sorted_desc_sorted.
  - exact Hs.
  - intros k. apply sorted_desc_filter.
Qed.

(** X6: the deduplicator is idempotent: run on its own result it returns
    that result. *)
Theorem remove_overlapping_boxes_idempotent (pool out : list box) :
  remove_overlapping_boxes pool = Ok out ->
  remove_overlapping_boxes out = Ok out.
Proof.
  intros Ho.
  destruct (remove_overlapping_boxes_IoU_ok pool) as (out1 & Ho1 & Hok).
  destruct (remove_overlapping_boxes_subseq pool) as (out2 & Ho2 & Hsub).
  assert (out1 = out) by congruence. assert (out2 = out) by congruence.
  subst out1 out2.
  destruct out as [|b out]; [reflexivity|].
  unfold remove_overlapping_boxes.
  rewrite sorted_desc_of_sorted.
  - exact (dedup_loop_all_kept (b :: out) [] Hok).
  - eapply subseq_StronglySorted; [exact Hsub | apply sorted_desc_sorted].
Qed.

Lemma remove_overlapping_boxes_idempotent_witness :
  remove_overlapping_boxes [mkBox 0 0 100 100; mkBox 40 40 100 60]
  = Ok [mkBox 0 0 100 100; mkBox 40 40 100 60].
Proof.
  apply (remove_overlapping_boxes_idempotent
           [mkBox 10 10 90 90; mkBox 40 40 100 60; mkBox 0 0 100 100]).
  reflexivity.
Defined.

Lemma Permutation_filter_local {A : Type} (f : A -> bool) (l l' : list A) :
  Permutation l l' -> Permutation (filter f l) (filter f l').
Proof.
  induction 1 as [|a l l' _ IH|a b l|l l' l'' _ IH1 _ IH2]; simpl.
  - constructor.
  - destruct (f a); [constructor|]; exact IH.
  - destruct (f a), (f b); try apply Permutation_refl. apply perm_swap.
  - eapply perm_trans; eassumption.
Qed.

Lemma filter_key_short {A : Type} (key : A -> Z) (k : Z) (l : list A) :
  NoDup (map key l) ->
  (List.length (filter (fun c => key c =? k)%Z l) <= 1)%nat.
Proof.
  induction l as [|a l IH]; intros Hnd; simpl; [lia|].
  inversion Hnd as [|? ? Hnotin Hnd']; subst.
  destruct (Z.eqb_spec (key a) k) as [E|_]; [|apply IH, Hnd'].
  simpl. assert (Hnil : filter (fun c => key c =? k)%Z l = []).
  { destruct (filter (fun c => key c =? k)%Z l) as [|b r] eqn:Ef;
      [reflexivity|].
    exfalso. apply Hnotin.
    destruct (filter_key_in key k b l r Ef) as [Hin Hk].
    rewrite E, <- Hk. apply in_map, Hin. }
  rewrite Hnil. simpl. lia.
Qed.

Lemma sorted_desc_perm_invariant {A : Type} (key : A -> Z) (l l' : list A) :
  Permutation l l' -> NoDup (map key l) ->
  sorted_desc key l = sorted_desc key l'.
Proof.
  intros Hp Hnd. apply sorted_desc_unique with (key := key);
    try apply sorted_desc_sorted.
  intros k. rewrite !sorted_desc_filter.
  pose proof (Permutation_filter_local (fun c => key c =? k)%Z l l' Hp) as Hf.
  pose proof (filter_key_short key k l Hnd) as Hlen.
  destruct (filter (fun c => key c =? k)%Z l) as [|a [|b r]].
  - symmetry. apply Permutation_nil, Hf.
  - symmetry. apply Permutation_length_1_inv, Hf.
  - simpl in Hlen. lia.
Qed.

(** X7: when no two regions of the pool have the same area, the result of
    the deduplicator does not depend on the order of the pool. *)
Theorem remove_overlapping_boxes_order_independent (pool pool' : list box) :
  Permutation pool pool' ->
  NoDup (map area pool) ->
  remove_overlapping_boxes pool = remove_overlapping_boxes pool'.
Proof.
  intros Hp Hnd.
  destruct pool as [|p pool].
  - apply Permutation_nil in Hp. subst. reflexivity.
  - destruct pool' as [|p' pool'].
    + apply Permutation_sym, Permutation_nil in Hp. discriminate.
    + unfold remove_overlapping_boxes.
      rewrite (sorted_desc_perm_invariant area _ _ Hp Hnd). reflexivity.
Qed.

Lemma remove_overlapping_boxes_order_independent_witness :
  remove_overlapping_boxes
    [mkBox 10 10 90 90; mkBox 0 0 100 100; mkBox 300 0 50 50]
  = remove_overlapping_boxes
      [mkBox 300 0 50 50; mkBox 10 10 90 90; mkBox 0 0 100 100].
Proof.
  apply remove_overlapping_boxes_order_independent.
  - apply Permutation_sym.
    apply (Permutation_cons_append
             [mkBox 10 10 90 90; mkBox 0 0 100 100] (mkBox 300 0 50 50)).
  - repeat constructor; simpl; intuition discriminate.
Defined.

(** With equal areas the order of the pool decides: of two overlapping
    regions of the same area the one that comes first is kept. *)
Lemma remove_overlapping_boxes_tie :
  remove_overlapping_boxes [mkBox 0 0 100 100; mkBox 10 0 100 100]
  = Ok [mkBox 0 0 100 100] /\
  remove_overlapping_boxes [mkBox 10 0 100 100; mkBox 0 0 100 100]
  = Ok [mkBox 10 0 100 100].
Proof. split; reflexivity. Qed.

(** ** Moving the regions *)

Lemma overlap_w_shift (dx dy : Z) (a b : box) :
  overlap_w (shift dx dy a) (shift dx dy b) = overlap_w a b.
Proof. unfold overlap_w, shift; simpl. lia. Qed.

Lemma overlap_h_shift (dx dy : Z) (a b : box) :
  overlap_h (shift dx dy a) (shift dx dy b) = overlap_h a b.
Proof. unfold overlap_h, shift; simpl. lia. Qed.

Lemma calculate_overlap_shift (dx dy : Z) (a b : box) :
  calculate_overlap (shift dx dy a) (shift dx dy b) = calculate_overlap a b.
Proof.
  rewrite !calculate_overlap_unfold.
  unfold overlaps, union_area, intersection_area.
  rewrite overlap_w_shift, overlap_h_shift. reflexivity.
Qed.

Lemma is_duplicate_shift (dx dy : Z) (b : box) (acc : list box) :
  is_duplicate (shift dx dy b) (map (shift dx dy) acc) = is_duplicate b acc.
Proof.
  induction acc as [|e acc IH]; [reflexivity|].
  cbn [map is_duplicate]. rewrite calculate_overlap_shift.
  destruct (calculate_overlap b e) as [q|]; [|reflexivity].
  cbn [bind]. rewrite IH. reflexivity.
Qed.

Lemma dedup_loop_shift (dx dy : Z) (cands : list box) :
  forall acc,
    dedup_loop (map (shift dx dy) cands) (map (shift dx dy) acc)
    = (out <- dedup_loop cands acc ;; Ok (map (shift dx dy) out)).
Proof.
  induction cands as [|c cands IH]; intros acc; [reflexivity|].
  cbn [map dedup_loop]. rewrite is_duplicate_shift.
  destruct (is_duplicate c acc) as [d|]; [|reflexivity].
  cbn [bind]. destruct d; [apply IH|].
  rewrite <- IH, map_app. reflexivity.
Qed.

Lemma insert_desc_map {A : Type} (key : A -> Z) (f : A -> A) (a : A)
  (l : list A) :
  (forall c, key (f c) = key c) ->
  insert_desc key (f a) (map f l) = map f (insert_desc key a l).
Proof.
  intros Hk. induction l as [|b l IH]; [reflexivity|].
  cbn [map insert_desc]. rewrite !Hk.
  destruct (key b <=? key a)%Z; [reflexivity|].
  rewrite IH. reflexivity.
Qed.

Lemma sorted_desc_map {A : Type} (key : A -> Z) (f : A -> A) (l : list A) :
  (forall c, key (f c) = key c) ->
  sorted_desc key (map f l) = map f (sorted_desc key l).
Proof.
  intros Hk. induction l as [|a l IH]; [reflexivity|].
  cbn [map sorted_desc]. rewrite IH. apply insert_desc_map, Hk.
Qed.

Lemma filter_ui_boxes_shift (dx dy shape0 shape1 : Z) (boxes : list box) :
  filter_ui_boxes shape0 shape1 (map (shift dx dy) boxes)
  = (out <- filter_ui_boxes shape0 shape1 boxes ;; Ok (map (shift dx dy) out)).
Proof.
  rewrite !filter_ui_boxes_filter. cbn [bind]. f_equal.
  induction boxes as [|b boxes IH]; [reflexivity|].
  cbn [map filter].
  replace (plausibleb shape1 shape0 (shift dx dy b))
    with (plausibleb shape1 shape0 b) by reflexivity.
  destruct (plausibleb shape1 shape0 b); cbn [map]; rewrite IH; reflexivity.
Qed.

(** X8: deduplication and the plausibility filter look at positions only
    through overlaps: moving every region of the pool by the same offset
    moves every final region by that offset and changes nothing else. *)
Theorem final_boxes_shift (cv2 : library) (image : Image cv2) (dx dy : Z)
  (pool : list box) :
  remove_overlapping_boxes (map (shift dx dy) pool)
  = (out <- remove_overlapping_boxes pool ;; Ok (map (shift dx dy) out)) /\
  final_boxes_of cv2 image (map (shift dx dy) pool)
  = (out <- final_boxes_of cv2 image pool ;; Ok (map (shift dx dy) out)).
Proof.
  assert (H : remove_overlapping_boxes (map (shift dx dy) pool)
              = (out <- remove_overlapping_boxes pool ;;
                 Ok (map (shift dx dy) out))).
  { destruct pool as [|p pool]; [reflexivity|].
    unfold remove_overlapping_boxes.
    change (map (shift dx dy) (p :: pool))
      with (shift dx dy p :: map (shift dx dy) pool).
    change (shift dx dy p :: map (shift dx dy) pool)
      with (map (shift dx dy) (p :: pool)).
    rewrite sorted_desc_map by reflexivity.
    apply (dedup_loop_shift dx dy (sorted_desc area (p :: pool)) []). }
  split; [exact H|].
  unfold final_boxes_of. rewrite H.
  destruct (remove_overlapping_boxes pool) as [out|]; [|reflexivity].
  cbn [bind]. apply filter_ui_boxes_shift.
Qed.

(** ** Values of the overlap *)

Lemma Qdiv_Z_ge (a b n : Z) (d : positive) :
  (0 < b)%Z ->
  ((n # d <= inject_Z a / inject_Z b)%Q <-> (n * b <= a * Z.pos d)%Z).
Proof.
  intros Hb. destruct b as [|p|p]; try lia.
  unfold Qle, Qdiv, Qmult, Qinv, inject_Z; simpl.
  rewrite !Z.mul_1_r. reflexivity.
Qed.

Lemma Qdiv_Z_gt (a b n : Z) (d : positive) :
  (0 < b)%Z ->
  ((n # d < inject_Z a / inject_Z b)%Q <-> (n * b < a * Z.pos d)%Z).
Proof.
  intros Hb. destruct b as [|p|p]; try lia.
  unfold Qlt, Qdiv, Qmult, Qinv, inject_Z; simpl.
  rewrite !Z.mul_1_r. reflexivity.
Qed.

Lemma IoU_bounds (a b : box) : (0 <= IoU a b <= 1)%Q.
Proof.
  unfold IoU. destruct (overlaps a b) eqn:E.
  - apply overlaps_true in E. destruct E as [Hw Hh].
    pose proof (union_ge_intersection a b Hw Hh) as Hu.
    split.
    + change 0%Q with (0 # 1). apply Qdiv_Z_ge; lia.
    + change 1%Q with (1 # 1). apply Qdiv_Z_le; lia.
  - split; [apply Qle_refl | discriminate].
Qed.

(** X9: the overlap of two boxes does not depend on their order and lies
    between 0 and 1. *)
Theorem calculate_overlap_symmetric_bounded (box1 box2 : box) :
  exists q,
    calculate_overlap box1 box2 = Ok q /\
    calculate_overlap box2 box1 = Ok q /\
    (0 <= q <= 1)%Q.
Proof.
  exists (IoU box1 box2).
  split; [apply calculate_overlap_IoU|].
  split; [rewrite IoU_sym; apply calculate_overlap_IoU | apply IoU_bounds].
Qed.

Lemma within_areas (b a : box) :
  within b a -> (0 < width b)%Z -> (0 < height b)%Z ->
  overlap_w b a = width b /\ overlap_h b a = height b /\
  (0 < area b <= area a)%Z.
Proof.
  unfold within, overlap_w, overlap_h, area.
  intros (Hx & Hy & Hr & Hb) Hw Hh.
  split; [lia|]. split; [lia|].
  assert (width b <= width a)%Z by lia.
  assert (height b <= height a)%Z by lia.
  nia.
Qed.

Lemma IoU_within (b a : box) :
  within b a -> (0 < width b)%Z -> (0 < height b)%Z ->
  IoU b a = (inject_Z (area b) / inject_Z (area a))%Q.
Proof.
  intros Hin Hw Hh.
  destruct (within_areas b a Hin Hw Hh) as (Ew & Eh & Ha).
  unfold IoU, overlaps, union_area, intersection_area.
  rewrite Ew, Eh.
  destruct (Z.ltb_spec 0 (width b)); [|lia].
  destruct (Z.ltb_spec 0 (height b)); [|lia].
  cbn [andb].
  replace (area b + area a - width b * height b)%Z with (area a)
    by (unfold area; lia).
  reflexivity.
Qed.

Lemma is_duplicate_within (b a : box) :
  within b a -> (0 < width b)%Z -> (0 < height b)%Z ->
  is_duplicate b [a] = Ok (area a <? 2 * area b)%Z.
Proof.
  intros Hin Hw Hh.
  destruct (within_areas b a Hin Hw Hh) as (_ & _ & Ha).
  cbn [is_duplicate]. rewrite calculate_overlap_IoU. cbn [bind].
  rewrite (IoU_within b a Hin Hw Hh).
  assert (E : Qgtb (inject_Z (area b) / inject_Z (area a)) overlap_threshold
              = (area a <? 2 * area b)%Z).
  { apply eq_true_iff_eq. unfold Qgtb, overlap_threshold.
    rewrite Qltb_lt, Z.ltb_lt, Qdiv_Z_gt by lia. lia. }
  rewrite E. destruct (area a <? 2 * area b)%Z; reflexivity.
Qed.

(** X10: for a box that lies inside another one, the overlap is the
    quotient of the two areas, so the inner box counts as a duplicate of
    the outer one exactly when its area is more than half of the outer
    area. *)
Theorem nested_box_overlap (b a : box) :
  within b a -> (0 < width b)%Z -> (0 < height b)%Z ->
  calculate_overlap b a = Ok (inject_Z (area b) / inject_Z (area a))%Q /\
  (is_duplicate b [a] = Ok true <-> (area a < 2 * area b)%Z) /\
  (is_duplicate b [a] = Ok false <-> (2 * area b <= area a)%Z).
Proof.
  intros Hin Hw Hh.
  split.
  - rewrite calculate_overlap_IoU, (IoU_within b a Hin Hw Hh). reflexivity.
  - rewrite (is_duplicate_within b a Hin Hw Hh).
    destruct (Z.ltb_spec (area a) (2 * area b)); split; split;
      intros; try lia; try reflexivity; discriminate.
Qed.

Lemma nested_box_overlap_witness :
  calculate_overlap (mkBox 10 10 90 90) (mkBox 0 0 100 100)
  = Ok (inject_Z 8100 / inject_Z 10000)%Q.
Proof.
  apply (nested_box_overlap (mkBox 10 10 90 90) (mkBox 0 0 100 100));
    [unfold within; simpl; lia | simpl; lia | simpl; lia].
Defined.

Lemma within_refl (b : box) : within b b.
Proof. unfold within. lia. Qed.

Lemma dedup_loop_copies (b : box) (n : nat) :
  (0 < width b)%Z -> (0 < height b)%Z ->
  dedup_loop (repeat b n) [b] = Ok [b].
Proof.
  intros Hw Hh. induction n as [|n IH]; [reflexivity|].
  cbn [repeat dedup_loop].
  rewrite (is_duplicate_within b b (within_refl b) Hw Hh).
  assert (0 < area b)%Z by (unfold area; nia).
  destruct (Z.ltb_spec (area b) (2 * area b)); [|lia].
  cbn [bind]. exact IH.
Qed.

Lemma sorted_desc_repeat {A : Type} (key : A -> Z) (a : A) (n : nat) :
  sorted_desc key (repeat a n) = repeat a n.
Proof.
  induction n as [|n IH]; [reflexivity|].
  cbn [repeat sorted_desc]. rewrite IH.
  destruct n; [reflexivity|].
  cbn [repeat insert_desc]. rewrite Z.leb_refl. reflexivity.
Qed.

Lemma IoU_degenerate (b : box) :
  (width b <= 0 \/ height b <= 0)%Z -> IoU b b = 0%Q.
Proof.
  intros Hd. unfold IoU, overlaps, overlap_w, overlap_h.
  destruct (Z.ltb_spec 0 (Z.min (x b + width b) (x b + width b)
                          - Z.max (x b) (x b)));
    destruct (Z.ltb_spec 0 (Z.min (y b + height b) (y b + height b)
                            - Z.max (y b) (y b)));
    try reflexivity; lia.
Qed.

(** X11: of several copies of one region with positive width and height
    the deduplicator keeps one; copies of a region of width or height 0 (or
    less) overlap nothing, themselves included, and are all kept. *)
Theorem duplicates_collapse (b : box) (n : nat) :
  ((0 < width b)%Z -> (0 < height b)%Z ->
   remove_overlapping_boxes (repeat b (S n)) = Ok [b]) /\
  ((width b <= 0 \/ height b <= 0)%Z ->
   remove_overlapping_boxes (repeat b n) = Ok (repeat b n)).
Proof.
  split.
  - intros Hw Hh. unfold remove_overlapping_boxes.
    cbn [repeat]. change (b :: repeat b n) with (repeat b (S n)).
    rewrite sorted_desc_repeat. cbn [repeat dedup_loop is_duplicate bind app].
    apply dedup_loop_copies; assumption.
  - intros Hd. destruct n as [|n]; [reflexivity|].
    unfold remove_overlapping_boxes. cbn [repeat].
    change (b :: repeat b n) with (repeat b (S n)).
    rewrite sorted_desc_repeat.
    apply (dedup_loop_all_kept (repeat b (S n)) []).
    generalize (S n) as m. intros m.
    induction m as [|m IH]; cbn [app repeat]; constructor; [exact IH|].
    apply Forall_forall. intros e He. apply repeat_spec in He. subst e.
    unfold IoU_ok. rewrite (IoU_degenerate b Hd). discriminate.
Qed.

Lemma duplicates_collapse_witness :
  remove_overlapping_boxes (repeat (mkBox 5 5 80 40) 3) = Ok [mkBox 5 5 80 40]
  /\ remove_overlapping_boxes (repeat (mkBox 5 5 0 40) 3)
     = Ok (repeat (mkBox 5 5 0 40) 3).
Proof.
  split.
  - apply (duplicates_collapse (mkBox 5 5 80 40) 2); simpl; lia.
  - apply (duplicates_collapse (mkBox 5 5 0 40) 3). left. simpl. lia.
Defined.

(** ** More on the plausibility filter *)

Lemma plausibleb_small_image (img_w img_h : Z) (b : box) :
  (img_w < 56 \/ img_h < 34)%Z -> plausibleb img_w img_h b = false.
Proof.
  intros Hs. unfold plausibleb.
  destruct (Z.leb_spec 50 (width b)); [|reflexivity].
  destruct (Z.leb_spec 30 (height b)); [|reflexivity].
  destruct (Z.leb_spec (10 * width b) (9 * img_w));
    destruct (Z.leb_spec (10 * height b) (9 * img_h));
    try reflexivity.
  lia.
Qed.

(** X12: on an image less than 56 pixels wide or less than 34 pixels high
    no region passes the filter: the final list is empty whatever the
    generators found. *)
Theorem small_image_no_regions (cv2 : library) (image : Image cv2)
  (pool : list box) :
  (shape1 cv2 image < 56 \/ shape0 cv2 image < 34)%Z ->
  filter_ui_boxes (shape0 cv2 image) (shape1 cv2 image) pool = Ok [] /\
  final_boxes_of cv2 image pool = Ok [].
Proof.
  intros Hs.
  assert (Hf : forall l,
             filter (plausibleb (shape1 cv2 image) (shape0 cv2 image)) l = []).
  { induction l as [|b l IH]; [reflexivity|].
    cbn [filter]. rewrite (plausibleb_small_image _ _ b Hs). exact IH. }
  split.
  - rewrite filter_ui_boxes_filter, Hf. reflexivity.
  - unfold final_boxes_of.
    destruct (remove_overlapping_boxes_subseq pool) as (out & Ho & _).
    rewrite Ho. cbn [bind]. rewrite filter_ui_boxes_filter, Hf. reflexivity.
Qed.

Lemma small_image_no_regions_witness :
  final_boxes_of narrow_library tt [mkBox 0 0 50 30; mkBox 2 2 52 400]
  = Ok [].
Proof.
  apply small_image_no_regions. left. simpl. lia.
Defined.

(** X13: a region proposed by the edge generator always passes the height
    and the aspect-ratio tests of the plausibility filter: the filter keeps
    it exactly when it is at least 50 wide and not larger than 0.9 times
    the image in either direction. *)
Theorem edge_region_filter (c : contour) (b : box) (shape0 shape1 : Z) :
  edge_contour_boxes c = Ok [b] ->
  ui_box_ok shape0 shape1 b
  = Ok ((50 <=? width b)%Z && (10 * width b <=? 9 * shape1)%Z
        && (10 * height b <=? 9 * shape0)%Z).
Proof.
  rewrite edge_contour_boxes_acceptb.
  destruct (edge_acceptb c) eqn:E; [|discriminate].
  intros Hb. injection Hb as <-.
  rewrite ui_box_ok_plausibleb. f_equal. unfold plausibleb.
  unfold edge_acceptb in E. rewrite !andb_true_iff, !Z.ltb_lt in E.
  destruct E as (((((_ & _) & Hw) & Hh) & Hr1) & Hr2).
  destruct (Z.leb_spec 30 (height (approx_rect c))); [|lia].
  destruct (Z.leb_spec (width (approx_rect c)) (15 * height (approx_rect c)));
    [|lia].
  destruct (Z.leb_spec (height (approx_rect c)) (15 * width (approx_rect c)));
    [|lia].
  rewrite !andb_true_r. reflexivity.
Qed.

Lemma edge_region_filter_witness :
  ui_box_ok 1000 1000 (mkBox 5 5 399 40) = Ok true.
Proof.
  apply (edge_region_filter (full_contour (mkBox 5 5 399 40))).
  reflexivity.
Defined.

(** X14: every final region has an area of at least 1500 and of at most
    0.81 times the area of the image. *)
Theorem final_boxes_area_bounds (cv2 : library) (image : Image cv2)
  (pool final_boxes : list box) (b : box) :
  final_boxes_of cv2 image pool = Ok final_boxes ->
  In b final_boxes ->
  (1500 <= area b)%Z /\
  (100 * area b <= 81 * (shape1 cv2 image * shape0 cv2 image))%Z.
Proof.
  unfold final_boxes_of.
  destruct (remove_overlapping_boxes_subseq pool) as (out & Ho & _).
  rewrite Ho. cbn [bind]. rewrite filter_ui_boxes_filter.
  intros E Hb. injection E as <-.
  apply filter_In in Hb. destruct Hb as [_ Hb].
  unfold plausibleb in Hb. rewrite !andb_true_iff, !Z.leb_le in Hb.
  destruct Hb as (((((Hw & Hh) & Hiw) & Hih) & _) & _).
  unfold area. split; nia.
Qed.

Lemma final_boxes_area_bounds_witness :
  (1500 <= area (mkBox 40 40 100 60))%Z /\
  (100 * area (mkBox 40 40 100 60) <= 81 * (1000 * 1000))%Z.
Proof.
  apply (final_boxes_area_bounds blank_library (@None box)
           [mkBox 10 10 90 90; mkBox 40 40 100 60; mkBox 0 0 100 100]
           [mkBox 0 0 100 100; mkBox 40 40 100 60]);
    [reflexivity | right; left; reflexivity].
Defined.

(** ** The other generators *)

Lemma Qgtb_div_7_10 (q : Q) (b : Z) :
  (0 < b)%Z ->
  Qgtb (q / inject_Z b) (7 # 10) = Qgtb (10 * q) (7 * inject_Z b).
Proof.
  intros Hb. apply eq_true_iff_eq. unfold Qgtb. rewrite !Qltb_lt.
  destruct q as [n d]. destruct b as [|p|p]; try lia.
  unfold Qlt, Qdiv, Qmult, Qinv, inject_Z. cbn [Qnum Qden].
  rewrite !Pos2Z.inj_mul. nia.
Qed.

Lemma rect_contour_boxes_acceptb (c : contour) :
  (0 < width (boundingRect c))%Z -> (0 < height (boundingRect c))%Z ->
  rect_contour_boxes c = Ok (if rect_acceptb c then [boundingRect c] else []).
Proof.
  intros Hw Hh. unfold rect_contour_boxes, rect_acceptb, truediv_q.
  destruct (Qgtb (contourArea c) 1000); [|reflexivity].
  assert (Hpos : (0 < width (boundingRect c) * height (boundingRect c))%Z)
    by nia.
  destruct (Z.eqb_spec (width (boundingRect c) * height (boundingRect c)) 0)
    as [E|_]; [lia|].
  cbn [bind andb]. rewrite (Qgtb_div_7_10 _ _ Hpos). reflexivity.
Qed.

Lemma for_each_pure_in {A : Type} (l : list A) (body : A -> result (list box))
  (f : A -> list box) :
  (forall a, In a l -> body a = Ok (f a)) ->
  for_each l body = Ok (flat_map f l).
Proof.
  induction l as [|a l IH]; intros Hb; [reflexivity|].
  cbn [for_each flat_map].
  rewrite (Hb a (or_introl eq_refl)), IH; [reflexivity|].
  intros b Hin. apply Hb. right. exact Hin.
Qed.

(** X15: when every contour has a bounding box of positive width and
    height, as [cv2.boundingRect] returns them, the morphological
    generator does not raise: it returns, for the kernel sizes 3, 5 and 7
    in turn, the bounding boxes of the contours whose area exceeds 1000 and
    0.7 times the area of the bounding box. *)
Theorem detect_rectangular_regions_accepts (contours_at : Z -> list contour) :
  (forall size c, In c (contours_at size) ->
     (0 < width (boundingRect c))%Z /\ (0 < height (boundingRect c))%Z) ->
  detect_rectangular_regions contours_at
  = Ok (flat_map
          (fun size => map boundingRect (filter rect_acceptb (contours_at size)))
          kernel_sizes).
Proof.
  intros Hpos. unfold detect_rectangular_regions.
  apply for_each_pure_in. intros size _.
  rewrite <- flat_map_if_filter.
  apply for_each_pure_in. intros c Hc.
  destruct (Hpos size c Hc) as [Hw Hh].
  apply rect_contour_boxes_acceptb; assumption.
Qed.

Lemma detect_rectangular_regions_accepts_witness :
  detect_rectangular_regions
    (fun size =>
       if (size =? 5)%Z
       then [full_contour (mkBox 0 0 100 60);
             mkContour 1200 4 (mkBox 0 0 50 50) (mkBox 0 0 50 50);
             mkContour 900 4 (mkBox 0 0 30 30) (mkBox 0 0 30 30)]
       else [])
  = Ok [mkBox 0 0 100 60].
Proof.
  apply (detect_rectangular_regions_accepts
           (fun size =>
              if (size =? 5)%Z
              then [full_contour (mkBox 0 0 100 60);
                    mkContour 1200 4 (mkBox 0 0 50 50) (mkBox 0 0 50 50);
                    mkContour 900 4 (mkBox 0 0 30 30) (mkBox 0 0 30 30)]
              else [])).
  intros size c. destruct (size =? 5)%Z; [|intros []].
  intros [<-|[<-|[<-|[]]]]; simpl; lia.
Defined.

Lemma rect_contour_boxes_raises (c : contour) :
  rect_divides_by_zero c = true ->
  rect_contour_boxes c = Raise ZeroDivisionError.
Proof.
  unfold rect_divides_by_zero, rect_contour_boxes, truediv_q.
  intros H. apply andb_true_iff in H. destruct H as [Ha Hz].
  rewrite Ha, Hz. reflexivity.
Qed.

Lemma rect_contour_boxes_returns (c : contour) :
  rect_divides_by_zero c = false ->
  exists bs, rect_contour_boxes c = Ok bs.
Proof.
  unfold rect_divides_by_zero, rect_contour_boxes, truediv_q.
  destruct (Qgtb (contourArea c) 1000); [|eexists; reflexivity].
  cbn [andb]. intros ->. cbn [bind]. eexists; reflexivity.
Qed.

Lemma for_each_raises {A : Type} (l : list A) (body : A -> result (list box))
  (bad : A -> bool) (e : exn) :
  (forall a, bad a = true -> body a = Raise e) ->
  (forall a, bad a = false -> exists bs, body a = Ok bs) ->
  (existsb bad l = true -> for_each l body = Raise e) /\
  (existsb bad l = false -> exists bs, for_each l body = Ok bs).
Proof.
  intros Hbad Hgood. induction l as [|a l [IH1 IH2]]; cbn [existsb for_each].
  - split; [discriminate | eexists; reflexivity].
  - destruct (bad a) eqn:Ea; cbn [orb].
    + rewrite (Hbad a Ea). split; [reflexivity | discriminate].
    + destruct (Hgood a Ea) as (bs & Hbs). rewrite Hbs. cbn [bind].
      split.
      * intros Hex. rewrite (IH1 Hex). reflexivity.
      * intros Hex. destruct (IH2 Hex) as (bs' & Hbs'). rewrite Hbs'.
        eexists; reflexivity.
Qed.

(** X16: the morphological generator raises [ZeroDivisionError] exactly
    when, for one of the kernel sizes, some contour of area above 1000 has
    a bounding box of area 0; otherwise it returns a list. *)
Theorem detect_rectangular_regions_error (contours_at : Z -> list contour) :
  (existsb (fun size => existsb rect_divides_by_zero (contours_at size))
     kernel_sizes = true ->
   detect_rectangular_regions contours_at = Raise ZeroDivisionError) /\
  (existsb (fun size => existsb rect_divides_by_zero (contours_at size))
     kernel_sizes = false ->
   exists boxes, detect_rectangular_regions contours_at = Ok boxes).
Proof.
  unfold detect_rectangular_regions.
  apply for_each_raises.
  - intros size Hs.
    apply (for_each_raises (contours_at size) rect_contour_boxes
             rect_divides_by_zero ZeroDivisionError
             rect_contour_boxes_raises rect_contour_boxes_returns), Hs.
  - intros size Hs.
    apply (for_each_raises (contours_at size) rect_contour_boxes
             rect_divides_by_zero ZeroDivisionError
             rect_contour_boxes_raises rect_contour_boxes_returns), Hs.
Qed.

Lemma detect_rectangular_regions_error_witness :
  detect_rectangular_regions
    (fun _ => [full_contour (mkBox 0 0 100 60);
               mkContour 1200 4 (mkBox 0 0 0 50) (mkBox 0 0 0 50)])
  = Raise ZeroDivisionError.
Proof.
  apply (detect_rectangular_regions_error
           (fun _ => [full_contour (mkBox 0 0 100 60);
                      mkContour 1200 4 (mkBox 0 0 0 50) (mkBox 0 0 0 50)])).
  reflexivity.
Defined.

(** ** The line generator *)

Lemma classify_line_cases (hs vs : list (Z * Z * Z)) (l : line) :
  classify_line (hs, vs) l
  = (hs ++ (if is_horizontal l then [horizontal_entry l] else []),
     vs ++ (if is_vertical l then [vertical_entry l] else [])).
Proof.
  destruct l as [[[x1 y1] x2] y2].
  unfold classify_line, is_horizontal, is_vertical, horizontal_entry,
    vertical_entry.
  destruct (np_abs (np_sub y2 y1) <? 10)%Z; cbn [negb andb].
  - rewrite app_nil_r. reflexivity.
  - destruct (np_abs (np_sub x2 x1) <? 10)%Z; rewrite !app_nil_r; reflexivity.
Qed.

Lemma classify_lines (ls : list line) :
  forall hs vs,
    fold_left classify_line ls (hs, vs)
    = (hs ++ map horizontal_entry (filter is_horizontal ls),
       vs ++ map vertical_entry (filter is_vertical ls)).
Proof.
  induction ls as [|l ls IH]; intros hs vs; cbn [fold_left filter map].
  - rewrite !app_nil_r. reflexivity.
  - rewrite classify_line_cases, IH, <- !app_assoc.
    destruct (is_horizontal l), (is_vertical l); reflexivity.
Qed.

Lemma detect_lines_boxes_unfold (ls : list line) :
  detect_lines_boxes (Some ls)
  = flat_map
      (fun h_line =>
         flat_map (corner_boxes h_line)
           (map vertical_entry (filter is_vertical ls)))
      (map horizontal_entry (filter is_horizontal ls)).
Proof.
  unfold detect_lines_boxes. rewrite classify_lines. reflexivity.
Qed.

Lemma wrap32_small (z : Z) :
  (- 2 ^ 31 <= z < 2 ^ 31)%Z -> wrap32 z = z.
Proof.
  intros Hz. unfold wrap32. rewrite Z.mod_small; lia.
Qed.

Lemma np_abs_sub_pixel (a b : Z) :
  pixel a -> pixel b -> np_abs (np_sub a b) = Z.abs (a - b).
Proof.
  unfold pixel, np_abs, np_sub. intros Ha Hb.
  rewrite (wrap32_small (a - b)) by lia.
  apply wrap32_small. lia.
Qed.

(** X17: on lines with pixel coordinates, every region of the line
    generator is made of a nearly horizontal line (its ends less than 10
    apart in y) and a line that is not, but is nearly vertical (its ends less
    than 10 apart in x): the region has the x of the first end of the
    vertical line and the y of the first end of the horizontal line, the
    width is the extent of the horizontal line in x and the height the
    extent of the vertical line in y, and the y of the horizontal line is
    less than 20 away from one end of the vertical line. *)
Theorem detect_lines_boxes_provenance (ls : list line) (b : box) :
  (forall l, In l ls -> pixel_line l) ->
  In b (detect_lines_boxes (Some ls)) ->
  exists hx1 hy1 hx2 hy2 vx1 vy1 vx2 vy2,
    In (hx1, hy1, hx2, hy2) ls /\ In (vx1, vy1, vx2, vy2) ls /\
    (Z.abs (hy2 - hy1) < 10)%Z /\
    (10 <= Z.abs (vy2 - vy1))%Z /\ (Z.abs (vx2 - vx1) < 10)%Z /\
    (Z.abs (hy1 - Z.min vy1 vy2) < 20 \/ Z.abs (hy1 - Z.max vy1 vy2) < 20)%Z /\
    b = mkBox vx1 hy1 (Z.abs (hx2 - hx1)) (Z.abs (vy2 - vy1)).
Proof.
  intros Hpix Hb. rewrite detect_lines_boxes_unfold in Hb.
  apply in_flat_map in Hb. destruct Hb as (h_line & Hh & Hb).
  apply in_flat_map in Hb. destruct Hb as (v_line & Hv & Hb).
  apply in_map_iff in Hh. destruct Hh as (lh & <- & Hh).
  apply in_map_iff in Hv. destruct Hv as (lv & <- & Hv).
  apply filter_In in Hh. destruct Hh as [Hlh Hhor].
  apply filter_In in Hv. destruct Hv as [Hlv Hver].
  pose proof (Hpix lh Hlh) as Ph. pose proof (Hpix lv Hlv) as Pv.
  destruct lh as [[[hx1 hy1] hx2] hy2], lv as [[[vx1 vy1] vx2] vy2].
  exists hx1, hy1, hx2, hy2, vx1, vy1, vx2, vy2.
  destruct Ph as (Ph1 & Ph2 & Ph3 & Ph4), Pv as (Pv1 & Pv2 & Pv3 & Pv4).
  assert (Pmin : forall a c, pixel a -> pixel c -> pixel (Z.min a c))
    by (unfold pixel; intros; lia).
  assert (Pmax : forall a c, pixel a -> pixel c -> pixel (Z.max a c))
    by (unfold pixel; intros; lia).
  unfold is_horizontal in Hhor. unfold is_vertical in Hver.
  rewrite np_abs_sub_pixel in Hhor by assumption.
  rewrite !np_abs_sub_pixel in Hver by assumption.
  apply Z.ltb_lt in Hhor.
  apply andb_true_iff in Hver. destruct Hver as [Hnh Hnv].
  apply negb_true_iff, Z.ltb_ge in Hnh. apply Z.ltb_lt in Hnv.
  unfold horizontal_entry, vertical_entry, corner_boxes in Hb.
  rewrite !np_abs_sub_pixel in Hb by auto.
  destruct ((Z.abs (hy1 - Z.min vy1 vy2) <? 20)%Z
            || (Z.abs (hy1 - Z.max vy1 vy2) <? 20)%Z) eqn:Ec; [|destruct Hb].
  apply orb_true_iff in Ec. rewrite !Z.ltb_lt in Ec.
  destruct ((30 <? Z.abs (Z.max hx1 hx2 - Z.min hx1 hx2))%Z
            && (30 <? Z.abs (Z.max vy1 vy2 - Z.min vy1 vy2))%Z);
    [|destruct Hb].
  destruct Hb as [<-|[]].
  repeat (split; [assumption|]).
  f_equal; lia.
Qed.

Lemma detect_lines_boxes_provenance_witness :
  exists hx1 hy1 hx2 hy2 vx1 vy1 vx2 vy2,
    In (hx1, hy1, hx2, hy2) [(0, 0, 100, 2); (3, 60, 0, 5); (7, 7, 90, 90)]%Z
    /\ In (vx1, vy1, vx2, vy2)
         [(0, 0, 100, 2); (3, 60, 0, 5); (7, 7, 90, 90)]%Z /\
    (Z.abs (hy2 - hy1) < 10)%Z /\
    (10 <= Z.abs (vy2 - vy1))%Z /\ (Z.abs (vx2 - vx1) < 10)%Z /\
    (Z.abs (hy1 - Z.min vy1 vy2) < 20 \/ Z.abs (hy1 - Z.max vy1 vy2) < 20)%Z /\
    mkBox 3 0 100 55
    = mkBox vx1 hy1 (Z.abs (hx2 - hx1)) (Z.abs (vy2 - vy1)).
Proof.
  apply (detect_lines_boxes_provenance
           [(0, 0, 100, 2); (3, 60, 0, 5); (7, 7, 90, 90)]%Z
           (mkBox 3 0 100 55)).
  - intros l [<-|[<-|[<-|[]]]]; unfold pixel_line, pixel; lia.
  - vm_compute. left. reflexivity.
Defined.

Lemma flat_map_nil_body {A B : Type} (l : list A) :
  flat_map (fun _ : A => @nil B) l = [].
Proof. induction l; simpl; auto. Qed.

(** X18: the line generator returns nothing when [cv2.HoughLinesP] finds
    no line or returns [None], and also when no line is classified as
    horizontal or none as vertical; a line whose ends are less than 10 apart
    in both directions counts as horizontal only. *)
Theorem detect_lines_boxes_empty (ls : list line) :
  detect_lines_boxes None = [] /\
  detect_lines_boxes (Some []) = [] /\
  ((forall l, In l ls -> is_horizontal l = false) ->
   detect_lines_boxes (Some ls) = []) /\
  ((forall l, In l ls -> is_vertical l = false) ->
   detect_lines_boxes (Some ls) = []) /\
  (forall l, is_horizontal l = true -> is_vertical l = false).
Proof.
  assert (Hnone : forall (f : line -> bool) l,
             (forall a, In a l -> f a = false) -> filter f l = []).
  { intros f l. induction l as [|a l IH]; intros Hf; [reflexivity|].
    cbn [filter]. rewrite (Hf a (or_introl eq_refl)).
    apply IH. intros c Hc. apply Hf. right. exact Hc. }
  split; [reflexivity|]. split; [reflexivity|]. split; [|split].
  - intros Hh. rewrite detect_lines_boxes_unfold, (Hnone _ _ Hh). reflexivity.
  - intros Hv. rewrite detect_lines_boxes_unfold, (Hnone _ _ Hv).
    cbn [map flat_map]. apply flat_map_nil_body.
  - intros [[[x1 y1] x2] y2]. unfold is_horizontal, is_vertical.
    intros ->. reflexivity.
Qed.

Lemma detect_lines_boxes_empty_witness :
  detect_lines_boxes (Some [(0, 0, 100, 2); (5, 40, 300, 41); (0, 0, 70, 70)]%Z)
  = [].
Proof.
  apply (detect_lines_boxes_empty
           [(0, 0, 100, 2); (5, 40, 300, 41); (0, 0, 70, 70)]%Z).
  intros l [<-|[<-|[<-|[]]]]; reflexivity.
Defined.

(** ** The script as a whole *)

Lemma detect_edges_multi_threshold_returns
  (contours_at : Z -> Z -> list contour) :
  exists boxes, detect_edges_multi_threshold contours_at = Ok boxes.
Proof.
  unfold detect_edges_multi_threshold. eexists.
  apply for_each_pure. intros lh.
  apply for_each_pure. exact edge_contour_boxes_acceptb.
Qed.

Lemma final_boxes_of_returns (cv2 : library) (image : Image cv2)
  (pool : list box) :
  exists final_boxes, final_boxes_of cv2 image pool = Ok final_boxes.
Proof.
  unfold final_boxes_of.
  destruct (remove_overlapping_boxes_subseq pool) as (out & Ho & _).
  rewrite Ho. cbn [bind]. rewrite filter_ui_boxes_filter.
  eexists. reflexivity.
Qed.

(** X19: with bounding boxes of positive width and height, as
    [cv2.boundingRect] returns them, nothing raises before the list is
    serialised: the final list exists, and the outcome of the run is
    decided by two calls.  When [json.dumps] raises, nothing is printed,
    [cv2.imwrite] is not called and the status is 1.  When it returns, its
    line is printed and [cv2.imwrite] is called with the output path; the
    status is 0 when that call returns and 1 when it raises. *)
Theorem run_outcome_by_library_calls (cv2 : library) (image_path : string)
  (image : Image cv2) :
  (forall size c, In c (morph_contours cv2 image size) ->
     (0 < width (boundingRect c))%Z /\ (0 < height (boundingRect c))%Z) ->
  exists final_boxes,
    (pool <- all_boxes cv2 image ;; final_boxes_of cv2 image pool)
    = Ok final_boxes /\
    (forall e,
       json_dumps cv2 (label_boxes cv2 image final_boxes) = Raise e ->
       run cv2 image_path image = mkOutcome [] [] 1) /\
    (forall document ok,
       json_dumps cv2 (label_boxes cv2 image final_boxes) = Ok document ->
       imwrite cv2 (output_path image_path) image = Ok ok ->
       run cv2 image_path image
       = mkOutcome [document] [output_path image_path] 0) /\
    (forall document e,
       json_dumps cv2 (label_boxes cv2 image final_boxes) = Ok document ->
       imwrite cv2 (output_path image_path) image = Raise e ->
       run cv2 image_path image
       = mkOutcome [document] [output_path image_path] 1).
Proof.
  intros Hpos.
  destruct (detect_edges_multi_threshold_returns (canny_contours cv2 image))
    as (b1 & Hb1).
  assert (Hb2 : detect_rectangular_regions (morph_contours cv2 image)
                = Ok (flat_map
                        (fun size => map boundingRect
                           (filter rect_acceptb
                              (morph_contours cv2 image size)))
                        kernel_sizes)).
  { unfold detect_rectangular_regions.
    apply for_each_pure_in. intros size _.
    rewrite <- flat_map_if_filter.
    apply for_each_pure_in. intros c Hc.
    destruct (Hpos size c Hc) as [Hw Hh].
    apply rect_contour_boxes_acceptb; assumption. }
  set (pool := b1 ++ flat_map
                 (fun size => map boundingRect
                    (filter rect_acceptb (morph_contours cv2 image size)))
                 kernel_sizes
               ++ detect_adaptive_threshold (adaptive_contours cv2 image)
               ++ detect_color_regions (color_contours cv2 image)
               ++ detect_lines_boxes (hough_lines cv2 image)).
  assert (Hpool : all_boxes cv2 image = Ok pool).
  { unfold all_boxes. rewrite Hb1, Hb2. reflexivity. }
  destruct (final_boxes_of_returns cv2 image pool) as (fb & Hfb).
  assert (Hrun : (pool <- all_boxes cv2 image ;;
                  final_boxes_of cv2 image pool) = Ok fb)
    by (rewrite Hpool; exact Hfb).
  exists fb. split; [exact Hrun|].
  split; [|split].
  - intros e He. unfold run. rewrite Hpool. cbn [bind].
    rewrite Hfb. cbn [bind]. rewrite He. reflexivity.
  - intros document ok Hd Hw.
    rewrite (run_printed cv2 image_path image fb document Hrun Hd), Hw.
    reflexivity.
  - intros document e Hd Hw.
    rewrite (run_printed cv2 image_path image fb document Hrun Hd), Hw.
    reflexivity.
Qed.

Lemma run_outcome_by_library_calls_witness :
  run two_buttons_library "screen.png" None
  = mkOutcome ["UI1,UI2"%string] ["screen_annotated.png"%string] 0 /\
  run two_buttons_library "upload_ab12" None
  = mkOutcome ["UI1,UI2"%string] ["upload_ab12"%string] 1.
Proof.
  split.
  - destruct (run_outcome_by_library_calls two_buttons_library
                "screen.png" None)
      as (final_boxes & Hf & _ & Hok & _).
    + intros size c [].
    + vm_compute in Hf. injection Hf as <-.
      apply (Hok "UI1,UI2"%string true); reflexivity.
  - destruct (run_outcome_by_library_calls two_buttons_library
                "upload_ab12" None)
      as (final_boxes & Hf & _ & _ & Hraise).
    + intros size c [].
    + vm_compute in Hf. injection Hf as <-.
      apply (Hraise "UI1,UI2"%string OtherError); reflexivity.
Defined.

Lemma run_shape (cv2 : library) (image_path : string) (image : Image cv2) :
  run cv2 image_path image = mkOutcome [] [] 1 \/
  exists document status,
    run cv2 image_path image
    = mkOutcome [document] [output_path image_path] status /\
    ((status = 0 /\
      exists ok, imwrite cv2 (output_path image_path) image = Ok ok) \/
     (status = 1 /\
      exists e, imwrite cv2 (output_path image_path) image = Raise e))%Z.
Proof.
  unfold run.
  destruct (pool <- all_boxes cv2 image;;
            final_boxes <- final_boxes_of cv2 image pool;;
            json_dumps cv2 (label_boxes cv2 image final_boxes))
    as [document|e]; [|left; reflexivity].
  right. exists document.
  destruct (imwrite cv2 (output_path image_path) image) as [ok|e].
  - exists 0%Z. split; [reflexivity|]. left. split; [reflexivity|].
    exists ok. reflexivity.
  - exists 1%Z. split; [reflexivity|]. right. split; [reflexivity|].
    exists e. reflexivity.
Qed.

(** X20: whatever the arguments and the library calls do, the script
    prints at most one line and exits with status 0 or 1.  It calls
    [cv2.imwrite] only when it was given a path that [cv2.imread] could
    load and after it has printed its line, and then exactly once, with
    the path derived from that argument; in that case the status is 0
    when [cv2.imwrite] returns and 1 when it raises. *)
Theorem main_outcome_shape (cv2 : library) (argv : list string) :
  (exit_status (main cv2 argv) = 0 \/ exit_status (main cv2 argv) = 1)%Z /\
  (List.length (stdout (main cv2 argv)) <= 1)%nat /\
  (written (main cv2 argv) = [] \/
   exists image_path image document status,
     nth_error argv 1 = Some image_path /\
     imread cv2 image_path = Some image /\
     main cv2 argv
     = mkOutcome [document] [output_path image_path] status /\
     ((status = 0 /\
       exists ok, imwrite cv2 (output_path image_path) image = Ok ok) \/
      (status = 1 /\
       exists e, imwrite cv2 (output_path image_path) image = Raise e))%Z).
Proof.
  unfold main.
  destruct argv as [|prog [|image_path rest]];
    cbn [List.length Nat.ltb Nat.leb nth];
    try (split; [left; reflexivity|]; split; [simpl; lia | left; reflexivity]).
  destruct (imread cv2 image_path) as [image|] eqn:Er.
  - destruct (run_shape cv2 image_path image)
      as [-> | (document & status & -> & Hst)].
    + split; [right; reflexivity|]. split; [simpl; lia | left; reflexivity].
    + split; [destruct Hst as [[-> _]|[-> _]]; [left | right]; reflexivity|].
      split; [simpl; lia|].
      right. exists image_path, image, document, status.
      split; [reflexivity|]. split; [exact Er|].
      split; [reflexivity | exact Hst].
  - split; [right; reflexivity|]. split; [simpl; lia | left; reflexivity].
Qed.

(** ** The annotated image *)

Lemma draw_loop_texts (l : list box) :
  forall i, drawn_texts (draw_loop i l)
            = map ui_label (seq (S i) (List.length l)).
Proof.
  induction l as [|b l IH]; intros i; [reflexivity|].
  cbn [draw_loop drawn_texts List.length seq map].
  rewrite IH, Nat.add_1_r. reflexivity.
Qed.

Lemma draw_loop_length (l : list box) :
  forall i, List.length (draw_loop i l) = (2 * List.length l)%nat.
Proof.
  induction l as [|b l IH]; intros i; [reflexivity|].
  cbn [draw_loop List.length]. rewrite IH. lia.
Qed.

Lemma draw_loop_nth (l : list box) :
  forall i k b,
    nth_error l k = Some b ->
    nth_error (draw_loop i l) (2 * k)
    = Some (rectangle (x b, y b) (x b + width b, y b + height b)
              (nth ((i + k) mod 5) colors (0, 0, 0)%Z) 2) /\
    nth_error (draw_loop i l) (2 * k + 1)
    = Some (putText (ui_label (i + k + 1)) (x b, y b - 10)%Z (7 # 10)
              (nth ((i + k) mod 5) colors (0, 0, 0)%Z) 2).
Proof.
  induction l as [|c l IH]; intros i k b Hk.
  - destruct k; discriminate.
  - destruct k as [|k].
    + injection Hk as ->. rewrite Nat.add_0_r. split; reflexivity.
    + simpl in Hk. destruct (IH (S i) k b Hk) as [H1 H2].
      replace (2 * S k)%nat with (S (S (2 * k))) by lia.
      replace (S (S (2 * k)) + 1)%nat with (S (S (2 * k + 1))) by lia.
      replace (i + S k)%nat with (S i + k)%nat by lia.
      cbn [draw_loop nth_error]. split; [exact H1 | exact H2].
Qed.

(** X21: the annotated image carries the labels of the printed list, in
    the same order: for the region at position k (from 0) the script draws
    the rectangle from (x, y) to (x + width, y + height) and the text
    UI(k+1) at (x, y - 10), both in the colour number k mod 5 of the
    palette, and nothing else is drawn. *)
Theorem draw_boxes_matches_labels (cv2 : library) (image : Image cv2)
  (final_boxes : list box) :
  drawn_texts (draw_boxes final_boxes)
  = map label (label_boxes cv2 image final_boxes) /\
  List.length (draw_boxes final_boxes) = (2 * List.length final_boxes)%nat /\
  forall k b,
    nth_error final_boxes k = Some b ->
    nth_error (draw_boxes final_boxes) (2 * k)
    = Some (rectangle (x b, y b) (x b + width b, y b + height b)
              (nth (k mod 5) colors (0, 0, 0)%Z) 2) /\
    nth_error (draw_boxes final_boxes) (2 * k + 1)
    = Some (putText (ui_label (k + 1)) (x b, y b - 10)%Z (7 # 10)
              (nth (k mod 5) colors (0, 0, 0)%Z) 2).
Proof.
  split; [|split].
  - unfold draw_boxes, label_boxes.
    rewrite draw_loop_texts, label_loop_labels. reflexivity.
  - apply draw_loop_length.
  - intros k b Hk. exact (draw_loop_nth final_boxes 0 k b Hk).
Qed.

Lemma draw_boxes_matches_labels_witness :
  nth_error
    (draw_boxes (repeat (mkBox 20 5 80 40) 6 ++ [mkBox 300 200 60 60])) 13
  = Some (putText "UI7" (300, 190)%Z (7 # 10) (255, 0, 0)%Z 2).
Proof.
  destruct (draw_boxes_matches_labels blank_library None
              (repeat (mkBox 20 5 80 40) 6 ++ [mkBox 300 200 60 60]))
    as (_ & _ & H).
  apply (H 6%nat (mkBox 300 200 60 60)). reflexivity.
Defined.

(** ** More on output_path *)

Lemma replace_from_absent (old new s : string) :
  occurs old s = false -> replace_from old new 0 s = s.
Proof.
  induction s as [|c s IH]; intros Ho; [reflexivity|].
  cbn [occurs] in Ho. apply orb_false_iff in Ho. destruct Ho as [Hp Ho].
  cbn [replace_from]. rewrite Hp, (IH Ho). reflexivity.
Qed.

(** X22: a path in which [.png] does not occur (another extension, or
    upper case) is returned unchanged: the annotated image is then written
    over the input image. *)
Theorem output_path_without_png (cv2 : library) (prog image_path : string)
  (image : Image cv2) :
  occurs ".png" image_path = false ->
  output_path image_path = image_path /\
  (imread cv2 image_path = Some image ->
   written (main cv2 [prog; image_path]) = [image_path] \/
   written (main cv2 [prog; image_path]) = []).
Proof.
  intros Ho.
  assert (E : output_path image_path = image_path)
    by (apply replace_from_absent, Ho).
  split; [exact E|].
  intros Hr. unfold main. cbn [List.length Nat.ltb Nat.leb nth]. rewrite Hr.
  destruct (run_shape cv2 image_path image)
    as [-> | (document & status & -> & _)].
  - right. reflexivity.
  - left. cbn [written]. rewrite E. reflexivity.
Qed.

Lemma output_path_without_png_witness :
  output_path "shots/capture.PNG" = "shots/capture.PNG"%string.
Proof.
  apply (output_path_without_png blank_library "detect_ui.py"
           "shots/capture.PNG" None).
  reflexivity.
Defined.

Lemma prefix_png_app (s : string) :
  prefix ".png" (s ++ ".png") = true ->
  s = EmptyString \/ prefix ".png" s = true.
Proof.
  destruct s as [|c1 [|c2 [|c3 [|c4 s]]]]; cbn [append prefix];
    try (left; reflexivity);
    repeat match goal with
           | |- context [ascii_dec ?a ?b] =>
               destruct (ascii_dec a b); [subst|]
           end;
    try discriminate; intros _; right; destruct s; reflexivity.
Qed.

Lemma length_append_local (s1 s2 : string) :
  String.length (s1 ++ s2) = (String.length s1 + String.length s2)%nat.
Proof.
  induction s1 as [|c s1 IH]; [reflexivity|].
  cbn [append String.length]. rewrite IH. reflexivity.
Qed.

Lemma eqb_longer (c : ascii) (s : string) :
  String.eqb (String c s ++ ".png") ".png" = false.
Proof.
  apply String.eqb_neq. intros E.
  apply (f_equal String.length) in E.
  rewrite length_append_local in E. simpl in E. lia.
Qed.

(** X23: for a path that ends in [.png] and has no other occurrence of
    [.png] (dots elsewhere are fine), the output path is the path with the
    suffix [.png] replaced by [_annotated.png]. *)
Theorem output_path_single_png (stem : string) :
  occurs ".png" stem = false ->
  output_path (stem ++ ".png") = (stem ++ "_annotated.png")%string /\
  replace_suffix (stem ++ ".png") ".png" "_annotated.png"
  = Some (stem ++ "_annotated.png")%string.
Proof.
  unfold output_path, str_replace.
  induction stem as [|c stem IH]; intros Ho.
  - split; reflexivity.
  - cbn [occurs] in Ho. apply orb_false_iff in Ho. destruct Ho as [Hp Ho].
    destruct (IH Ho) as [IH1 IH2].
    assert (Hp' : prefix ".png" (String c stem ++ ".png") = false).
    { destruct (prefix ".png" (String c stem ++ ".png")) eqn:E;
        [|reflexivity].
      apply prefix_png_app in E. destruct E as [E|E];
        [discriminate | congruence]. }
    split.
    + change (String c stem ++ ".png")%string
        with (String c (stem ++ ".png")) in *.
      cbn [replace_from]. rewrite Hp', IH1. reflexivity.
    + pose proof (eqb_longer c stem) as El.
      change (String c stem ++ ".png")%string
        with (String c (stem ++ ".png")) in *.
      cbn [replace_suffix]. rewrite El, IH2. reflexivity.
Qed.

Lemma output_path_single_png_witness :
  output_path "./shots.v2/login.page.png"
  = "./shots.v2/login.page_annotated.png"%string.
Proof.
  apply (output_path_single_png "./shots.v2/login.page"). reflexivity.
Defined.

(** ** The pipeline on its own result *)

Lemma filter_idempotent {A : Type} (f : A -> bool) (l : list A) :
  filter f (filter f l) = filter f l.
Proof.
  induction l as [|a l IH]; [reflexivity|].
  cbn [filter]. destruct (f a) eqn:E; [|exact IH].
  cbn [filter]. rewrite E, IH. reflexivity.
Qed.

(** X24: deduplication followed by the filter is idempotent: given its
    own final list as the pool, it returns that list unchanged. *)
Theorem final_boxes_of_idempotent (cv2 : library) (image : Image cv2)
  (pool final_boxes : list box) :
  final_boxes_of cv2 image pool = Ok final_boxes ->
  final_boxes_of cv2 image final_boxes = Ok final_boxes.
Proof.
  unfold final_boxes_of.
  destruct (remove_overlapping_boxes_IoU_ok pool) as (out & Ho & Hok).
  destruct (remove_overlapping_boxes_subseq pool) as (out' & Ho' & Hsub).
  assert (out' = out) by congruence. subst out'.
  rewrite Ho. cbn [bind]. rewrite filter_ui_boxes_filter.
  intros E. injection E as <-.
  set (keep := plausibleb (shape1 cv2 image) (shape0 cv2 image)).
  assert (Hsorted : StronglySorted (ge_key area) (filter keep out)).
  { apply StronglySorted_filter.
    eapply subseq_StronglySorted; [exact Hsub | apply sorted_desc_sorted]. }
  assert (Hd : remove_overlapping_boxes (filter keep out)
               = Ok (filter keep out)).
  { destruct (filter keep out) as [|b l] eqn:Ef; [reflexivity|].
    unfold remove_overlapping_boxes.
    rewrite (sorted_desc_of_sorted area (b :: l) Hsorted).
    apply (dedup_loop_all_kept (b :: l) []).
    rewrite <- Ef. apply StronglySorted_filter, Hok. }
  rewrite Hd. cbn [bind].
  rewrite filter_ui_boxes_filter. fold keep.
  rewrite filter_idempotent. reflexivity.
Qed.

Lemma final_boxes_of_idempotent_witness :
  final_boxes_of blank_library None [mkBox 0 0 100 100; mkBox 40 40 100 60]
  = Ok [mkBox 0 0 100 100; mkBox 40 40 100 60].
Proof.
  apply (final_boxes_of_idempotent blank_library None
           [mkBox 10 10 90 90; mkBox 40 40 100 60; mkBox 0 0 100 100;
            mkBox 0 0 20 20]).
  reflexivity.
Defined.
